(** * TransColors: text segmentation, configuration lookup and the in-memory
    vector index

    A shallow embedding of four Python classes of the repository,

    - [TextProcessor]         of [trans-llm/src/text_processor.py],
    - [Config]                of [trans-llm/src/config.py],
    - [VectorStore]           of [trans-llm/src/vector_store.py],
    - [PsychonautWikiCrawler] of [trans-llm/src/crawlers/psychonautwiki_crawler.py],

    followed by the properties of the specification that concern them and by
    further properties of the code.

    Python values are modelled as follows.  A [str] is a list of Unicode code
    points, an [int] is a [Z], a [float] (and a numpy [float64]) is a binary64
    [float], a [dict] is an association list kept in insertion order with
    unique keys, and a method of a class with mutable fields is a function of
    the store it reads and writes. *)

From Stdlib Require Import String Ascii.
From Stdlib Require Import List ZArith NArith Lia Bool.
From Stdlib Require Import Permutation Sorted.
From Stdlib Require Import Floats.
From Stdlib Require Decimal DecimalString DecimalNat DecimalZ DecimalFacts.
Import ListNotations.

Local Open Scope Z_scope.

(* ===================================================================== *)
(** * Python strings *)
(* ===================================================================== *)

(** A character is a Unicode code point; [len(s)] counts code points. *)
Definition char : Type := N.

Definition str : Type := list char.

Definition len (s : str) : Z := Z.of_nat (length s).

(** A Rocq string literal read as a Python string of ASCII characters. *)
Definition py (s : string) : str := map N_of_ascii (list_ascii_of_string s).

Definition char_eqb (a b : char) : bool := N.eqb a b.

Fixpoint str_eqb (a b : str) : bool :=
  match a, b with
  | [], [] => true
  | x :: a', y :: b' => char_eqb x y && str_eqb a' b'
  | _, _ => false
  end.

(** The truth value of a list or of a dictionary: it is not empty. *)
Definition nonempty {A : Type} (l : list A) : bool :=
  match l with [] => false | _ => true end.

(** [sep.join(parts)] *)
Fixpoint join (sep : str) (parts : list str) : str :=
  match parts with
  | [] => []
  | [p] => p
  | p :: rest => p ++ sep ++ join sep rest
  end.

(** [s.startswith(prefix)] and [s.endswith(suffix)] *)
Fixpoint startswith (s prefix : str) : bool :=
  match prefix, s with
  | [], _ => true
  | p :: prefix', c :: s' => char_eqb c p && startswith s' prefix'
  | _ :: _, [] => false
  end.

Definition endswith (s suffix : str) : bool := startswith (rev s) (rev suffix).

(** [str(z)] for an [int]: its decimal digits, after a minus sign when it is
    negative. *)
Definition str_of_int (z : Z) : str :=
  py (DecimalString.NilZero.string_of_int (Z.to_int z)).

(** The classification of code points comes from the Unicode database of the
    interpreter.  The two tables below are its restriction to ASCII, used
    where a statement is evaluated on an ASCII text. *)
Definition ascii_isspace (c : char) : bool :=
  ((9 <=? c) && (c <=? 13) || (28 <=? c) && (c <=? 32))%N.

Definition ascii_isalnum (c : char) : bool :=
  ((48 <=? c) && (c <=? 57) || (65 <=? c) && (c <=? 90)
   || (97 <=? c) && (c <=? 122))%N.

(* ===================================================================== *)
(** * text_processor.py *)
(* ===================================================================== *)

Module TextProcessor.

(** [self]: the two bounds set by [__init__]. *)
Record t : Type := mk { min_length : Z; max_length : Z }.

(** [TextProcessor()] with the default arguments of [__init__]. *)
Definition default : t := mk 100 10000.

Section Unicode.

(** [isspace c]: [c] is Unicode whitespace (what [\s] and [str.strip] test).
    [isalnum c]: [c] is a Unicode letter or digit (what [\w] tests, besides
    the underscore). *)
Variable isspace : char -> bool.
Variable isalnum : char -> bool.

Definition SPACE : char := 32%N.

(** [re.sub(r"\s+", " ", text)]: every maximal run of whitespace becomes one
    space.  [in_run] tells that the previous character belonged to the run
    being replaced. *)
Fixpoint sub_whitespace_from (in_run : bool) (text : str) : str :=
  match text with
  | [] => []
  | c :: rest =>
      if isspace c
      then if in_run then sub_whitespace_from true rest
           else SPACE :: sub_whitespace_from true rest
      else c :: sub_whitespace_from false rest
  end.

Definition sub_whitespace (text : str) : str := sub_whitespace_from false text.

(** The punctuation of the class [[^\w\s.,;:!?()-]]. *)
Definition punctuation : str := py ".,;:!?()-".

Definition is_word (c : char) : bool := isalnum c || char_eqb c 95%N.

(** [keeps c]: [c] is outside the negated class, so the substitution of the
    class by the empty string leaves it in place. *)
Definition keeps (c : char) : bool :=
  is_word c || isspace c || existsb (char_eqb c) punctuation.

(** [re.sub(r"[^\w\s.,;:!?()-]", "", text)] *)
Definition sub_special (text : str) : str := filter keeps text.

Fixpoint lstrip (s : str) : str :=
  match s with
  | [] => []
  | c :: rest => if isspace c then lstrip rest else s
  end.

Definition rstrip (s : str) : str := rev (lstrip (rev s)).

(** [s.strip()] *)
Definition strip (s : str) : str := rstrip (lstrip s).

(** [TextProcessor.clean_text] *)
Definition clean_text (text : str) : str :=
  match text with
  | [] => []
  | _ => strip (sub_special (sub_whitespace text))
  end.

(** Where the scan of [re.split(r"(?<=[.!?])\s+", text)] stands: the
    previous character ended a sentence ([AfterEnd]), or belongs to a
    separator being consumed ([InSeparator]), or neither. *)
Inductive scan : Type := Plain | AfterEnd | InSeparator.

Definition is_sentence_end (c : char) : bool := existsb (char_eqb c) (py ".!?").

(** [c] is added to the first piece of [pieces]. *)
Definition extend (c : char) (pieces : list str) : list str :=
  match pieces with
  | [] => [[c]]
  | p :: rest => (c :: p) :: rest
  end.

(** [re.split(r"(?<=[.!?])\s+", text)]: a maximal run of whitespace is a
    separator when the character before it is one of [. ! ?]; the pieces
    between the separators are returned, the last one possibly empty. *)
Fixpoint re_split_from (st : scan) (text : str) : list str :=
  match text with
  | [] => [[]]
  | c :: rest =>
      if isspace c then
        match st with
        | InSeparator => re_split_from InSeparator rest
        | AfterEnd => [] :: re_split_from InSeparator rest
        | Plain => extend c (re_split_from Plain rest)
        end
      else
        extend c (re_split_from (if is_sentence_end c then AfterEnd else Plain) rest)
  end.

Definition re_split (text : str) : list str := re_split_from Plain text.

(** The variables of the loop of [split_text]. *)
Record loop : Type := mkLoop {
  current_chunk : list str;
  chunks : list str;
  current_length : Z
}.

(** [chunks] after [if len(chunk_text) >= self.min_length:
    chunks.append(chunk_text)] with [chunk_text = " ".join(current_chunk)]. *)
Definition flush (self : t) (current : list str) (out : list str) : list str :=
  let chunk_text := join [SPACE] current in
  if len chunk_text >=? min_length self then out ++ [chunk_text] else out.

(** One iteration of [for sentence in sentences]. *)
Definition iteration (self : t) (chunk_size : Z) (st : loop) (sentence : str) : loop :=
  let sentence_length := len sentence in
  let st1 :=
    if (current_length st + sentence_length >? chunk_size)
       && nonempty (current_chunk st)
    then mkLoop [] (flush self (current_chunk st) (chunks st)) 0
    else st in
  mkLoop (current_chunk st1 ++ [sentence]) (chunks st1)
         (current_length st1 + sentence_length).

(** [TextProcessor.split_text] *)
Definition split_text (self : t) (text : str) (chunk_size overlap : Z) : list str :=
  match text with
  | [] => []
  | _ =>
      let text := clean_text text in
      let sentences := re_split text in
      let st := fold_left (iteration self chunk_size) sentences (mkLoop [] [] 0) in
      if nonempty (current_chunk st)
      then flush self (current_chunk st) (chunks st)
      else chunks st
  end.

(** [TextProcessor.filter_chunks], on the [content] fields. *)
Definition filter_chunks (self : t) (contents : list str) : list str :=
  filter (fun c => (min_length self <=? len c) && (len c <=? max_length self)) contents.

End Unicode.

Section Grouping.

Variable self : t.
Variable chunk_size : Z.

(** The chunks [split_text] keeps from closed groups of sentences. *)
Definition retained (groups : list (list str)) : list str :=
  filter (fun chunk_text => len chunk_text >=? min_length self)
         (map (join [SPACE]) groups).

(** The groups of sentences the loop of [split_text] closes, from the
    values of [current_chunk] and [current_length] onwards. *)
Fixpoint grouping (current : list str) (length_so_far : Z)
    (sentences : list str) : list (list str) :=
  match sentences with
  | [] => if nonempty current then [current] else []
  | sentence :: rest =>
      if (length_so_far + len sentence >? chunk_size) && nonempty current
      then current :: grouping [sentence] (0 + len sentence) rest
      else grouping (current ++ [sentence]) (length_so_far + len sentence) rest
  end.

End Grouping.

Section Shapes.

Variable isspace : char -> bool.

(** The whitespace of [s] is made of single spaces, each apart from the
    next; [after_space] tells that a space comes right before [s]. *)
Fixpoint single_spaced (after_space : bool) (s : str) : bool :=
  match s with
  | [] => true
  | c :: rest =>
      if isspace c
      then char_eqb c SPACE && negb after_space && single_spaced true rest
      else single_spaced false rest
  end.

(** [s] neither starts nor ends with whitespace. *)
Definition stripped (s : str) : bool :=
  match s with [] => true | c :: _ => negb (isspace c) end
  && match rev s with [] => true | c :: _ => negb (isspace c) end.

(** [s] ends with one of [. ! ?]. *)
Definition ends_sentence (s : str) : bool :=
  match rev s with
  | c :: _ => is_sentence_end c
  | [] => false
  end.

End Shapes.

End TextProcessor.

(* ===================================================================== *)
(** * Python dictionaries and values *)
(* ===================================================================== *)

(** A [dict] with [str] keys: the items in insertion order.  Assigning to a
    key that is present replaces its value in place, assigning to a new key
    appends an item. *)
Definition dict (V : Type) : Type := list (str * V).

Section Dict.

Variable V : Type.

(** [d.get(k)] *)
Fixpoint dict_get (d : dict V) (k : str) : option V :=
  match d with
  | [] => None
  | (k', v) :: rest => if str_eqb k' k then Some v else dict_get rest k
  end.

(** [k in d] *)
Definition dict_contains (d : dict V) (k : str) : bool :=
  match dict_get d k with Some _ => true | None => false end.

(** [d[k] = v] *)
Fixpoint dict_set (d : dict V) (k : str) (v : V) : dict V :=
  match d with
  | [] => [(k, v)]
  | (k', v') :: rest =>
      if str_eqb k' k then (k', v) :: rest else (k', v') :: dict_set rest k v
  end.

(** The items left by [del d[k]] when [k] is present. *)
Fixpoint dict_remove (d : dict V) (k : str) : dict V :=
  match d with
  | [] => []
  | (k', v') :: rest =>
      if str_eqb k' k then rest else (k', v') :: dict_remove rest k
  end.

(** [del d[k]]: [None] stands for [KeyError]. *)
Definition dict_del (d : dict V) (k : str) : option (dict V) :=
  if dict_contains d k then Some (dict_remove d k) else None.

(** [list(d.keys())] *)
Definition dict_keys (d : dict V) : list str := map fst d.

End Dict.

Arguments dict_get {V} d k.
Arguments dict_contains {V} d k.
Arguments dict_set {V} d k v.
Arguments dict_remove {V} d k.
Arguments dict_del {V} d k.
Arguments dict_keys {V} d.

(** The keys after [d[k] = v] and after [del d[k]], and membership, as
    functions of the keys alone. *)
Fixpoint keys_mem (ks : list str) (k : str) : bool :=
  match ks with
  | [] => false
  | k' :: rest => if str_eqb k' k then true else keys_mem rest k
  end.

Fixpoint keys_set (ks : list str) (k : str) : list str :=
  match ks with
  | [] => [k]
  | k' :: rest => if str_eqb k' k then ks else k' :: keys_set rest k
  end.

Fixpoint keys_remove (ks : list str) (k : str) : list str :=
  match ks with
  | [] => []
  | k' :: rest => if str_eqb k' k then rest else k' :: keys_remove rest k
  end.

(** The values a YAML document or a metadata mapping holds. *)
#[warnings="-register-all"]
Inductive pyval : Type :=
  | PNone
  | PBool (b : bool)
  | PInt (z : Z)
  | PFloat (x : float)
  | PStr (s : str)
  | PList (items : list pyval)
  | PDict (items : list (str * pyval)).

(** The truth value of a value, as [not] and [if] take it. *)
Definition truthy (v : pyval) : bool :=
  match v with
  | PNone => false
  | PBool b => b
  | PInt z => negb (z =? 0)
  | PFloat x => negb (x =? 0)%float
  | PStr s => nonempty s
  | PList items => nonempty items
  | PDict items => nonempty items
  end.

(** [len(v)]; [None] stands for the [TypeError] of a value without length. *)
Definition py_len (v : pyval) : option Z :=
  match v with
  | PStr s => Some (len s)
  | PList items => Some (Z.of_nat (length items))
  | PDict items => Some (Z.of_nat (length items))
  | _ => None
  end.

(** [d.get(key, default)] *)
Definition get_or (d : dict pyval) (key : str) (default : pyval) : pyval :=
  match dict_get d key with
  | Some v => v
  | None => default
  end.

(** [v[key]] for a [str] key; [None] stands for the exception raised:
    [KeyError] on a mapping without the key, [TypeError] on any other
    value. *)
Definition subscript (v : pyval) (key : str) : option pyval :=
  match v with
  | PDict items => dict_get items key
  | _ => None
  end.

(* ===================================================================== *)
(** * config.py *)
(* ===================================================================== *)

Module Config.

(** [self.config], the mapping [_load_config] returns. *)
Record t : Type := mk { config : dict pyval }.

(** [Config.get]: [self.config.get(key, default)] *)
Definition get (self : t) (key : str) (default : pyval) : pyval :=
  match dict_get (config self) key with
  | Some v => v
  | None => default
  end.

(** [Config.__contains__] *)
Definition contains (self : t) (key : str) : bool :=
  dict_contains (config self) key.

(** [key.split(".")] *)
Fixpoint split_dots (key : str) : list str :=
  match key with
  | [] => [[]]
  | c :: rest =>
      if char_eqb c 46%N then [] :: split_dots rest
      else match split_dots rest with
           | [] => [[c]]
           | p :: ps => (c :: p) :: ps
           end
  end.

(** The value a path of keys leads to in nested mappings. *)
Fixpoint descend (path : list str) (v : pyval) : option pyval :=
  match path with
  | [] => Some v
  | k :: rest =>
      match v with
      | PDict items =>
          match dict_get items k with
          | Some v' => descend rest v'
          | None => None
          end
      | _ => None
      end
  end.

(** The lookup the specification describes, written from its words: a
    dotted key such as [vector_db.collection_name] is resolved into the
    nested configuration, and an absent key yields the default. *)
Definition spec_get (self : t) (key : str) (default : pyval) : pyval :=
  match descend (split_dots key) (PDict (config self)) with
  | Some v => v
  | None => default
  end.

(** [Config.__getitem__]: [self.config[key]]; [None] stands for
    [KeyError]. *)
Definition getitem (self : t) (key : str) : option pyval :=
  dict_get (config self) key.

(** [config.startswith("${") and config.endswith("}")] *)
Definition is_placeholder (s : str) : bool :=
  startswith s (py "${") && endswith s (py "}").

(** [config[2:-1]] *)
Definition env_var (s : str) : str := firstn (length s - 3) (skipn 2 s).

(** No string in [v] has the form of a placeholder. *)
Fixpoint placeholder_free (v : pyval) : bool :=
  match v with
  | PDict items =>
      forallb (fun kv => let '(_, x) := kv in placeholder_free x) items
  | PStr s => negb (is_placeholder s)
  | PList items => forallb placeholder_free items
  | _ => true
  end.

Section Environ.

(** [os.getenv(name)] for a name the environment can encode, [None] when
    the variable is not set. *)
Variable getenv : str -> option str.

(** [Config._replace_env_vars] *)
Fixpoint _replace_env_vars (config : pyval) : pyval :=
  match config with
  | PDict items =>
      PDict (map (fun kv => let '(k, v) := kv in (k, _replace_env_vars v)) items)
  | PStr s =>
      if is_placeholder s
      then PStr (match getenv (env_var s) with Some value => value | None => [] end)
      else config
  | PList items => PList (map _replace_env_vars items)
  | _ => config
  end.

End Environ.

End Config.

(* ===================================================================== *)
(** * vector_store.py *)
(* ===================================================================== *)

Module VectorStore.

(** A one-dimensional [np.ndarray] of [float64]. *)
Definition vector : Type := list float.

(** The two in-memory mappings of a [VectorStore].  The persistent client,
    its collection and the embedding model are external services and take
    no part in [add], [get], [search], [delete] and [clear]. *)
Record t : Type := mk {
  vectors : dict vector;
  metadata : dict (dict pyval)
}.

(** The two mappings as [__init__] leaves them. *)
Definition empty : t := mk [] [].

Inductive exn : Type :=
  | KeyError (key : str)
  | ValueError.

Inductive outcome (A : Type) : Type :=
  | Return (a : A)
  | Raise (e : exn).

Arguments Return {A} a.
Arguments Raise {A} e.

(** A method body: it runs in a store, returns or raises, and leaves a
    store.  A raised exception keeps the writes made before it. *)
Definition M (A : Type) : Type := t -> outcome A * t.

Definition ret {A : Type} (a : A) : M A := fun s => (Return a, s).

Definition raise {A : Type} (e : exn) : M A := fun s => (Raise e, s).

Definition bind {A B : Type} (m : M A) (f : A -> M B) : M B :=
  fun s =>
    match m s with
    | (Return a, s') => f a s'
    | (Raise e, s') => (Raise e, s')
    end.

Definition read {A : Type} (field : t -> A) : M A := fun s => (Return (field s), s).

Definition write (f : t -> t) : M unit := fun s => (Return tt, f s).

(** An expression that may raise and that reads no field of the store. *)
Definition pure {A : Type} (o : outcome A) : M A := fun s => (o, s).

Notation "x <- m ;; k" := (bind m (fun x => k))
  (at level 61, m at next level, right associativity).
Notation "m ;; k" := (bind m (fun _ => k))
  (at level 61, right associativity).

(** A method body that leaves every store as it finds it. *)
Definition readonly {A : Type} (m : M A) : Prop := forall s, snd (m s) = s.

(** [d[k]] as an expression. *)
Definition getitem {V : Type} (d : dict V) (k : str) : M V :=
  match dict_get d k with
  | Some v => ret v
  | None => raise (KeyError k)
  end.

Fixpoint mapM {A B : Type} (f : A -> M B) (l : list A) : M (list B) :=
  match l with
  | [] => ret []
  | a :: rest => b <- f a ;; bs <- mapM f rest ;; ret (b :: bs)
  end.

Definition set_vectors (d : dict vector) (s : t) : t := mk d (metadata s).

Definition set_metadata (d : dict (dict pyval)) (s : t) : t := mk (vectors s) d.

(** [metadata or {}] *)
Definition or_empty (md : option (dict pyval)) : dict pyval :=
  match md with
  | Some (item :: items) => item :: items
  | _ => []
  end.

(** [VectorStore.add] *)
Definition add (id : str) (vector : vector) (md : option (dict pyval)) : M unit :=
  write (fun s => set_vectors (dict_set (vectors s) id vector) s) ;;
  write (fun s => set_metadata (dict_set (metadata s) id (or_empty md)) s).

(** The dictionary [get] returns. *)
Record entry : Type := mkEntry {
  entry_vector : vector;
  entry_metadata : dict pyval
}.

(** [VectorStore.get]; [None] is Python's [None]. *)
Definition get (id : str) : M (option entry) :=
  vs <- read vectors ;;
  if negb (dict_contains vs id) then ret None
  else
    v <- getitem vs id ;;
    ms <- read metadata ;;
    m <- getitem ms id ;;
    ret (Some (mkEntry v m)).

(** [del self.vectors[id]] and [del self.metadata[id]] *)
Definition del_vectors (id : str) : M unit :=
  vs <- read vectors ;;
  match dict_del vs id with
  | Some vs' => write (set_vectors vs')
  | None => raise (KeyError id)
  end.

Definition del_metadata (id : str) : M unit :=
  ms <- read metadata ;;
  match dict_del ms id with
  | Some ms' => write (set_metadata ms')
  | None => raise (KeyError id)
  end.

(** [VectorStore.delete] *)
Definition delete (id : str) : M bool :=
  vs <- read vectors ;;
  if negb (dict_contains vs id) then ret false
  else del_vectors id ;; del_metadata id ;; ret true.

(** [VectorStore.clear] *)
Definition clear : M unit :=
  write (set_vectors []) ;; write (set_metadata []).

(** [l[:k]] *)
Definition slice_to {A : Type} (k : Z) (l : list A) : list A :=
  if k <? 0 then firstn (Z.to_nat (Z.of_nat (length l) + k)) l
  else firstn (Z.to_nat k) l.

Section Sorted.

Variable A : Type.
Variable key : A -> float.

Fixpoint insert_reverse (x : A) (l : list A) : list A :=
  match l with
  | [] => [x]
  | y :: rest =>
      if (key x <? key y)%float then y :: insert_reverse x rest else x :: l
  end.

(** [sorted(l, key=key, reverse=True)].  Python's sort is stable, compares
    keys with [<] only, and with [reverse=True] still keeps items of equal
    keys in their original order.  Insertion from the right end computes
    the list every such sort returns when [<] is a strict weak order on the
    keys. *)
Fixpoint sorted_reverse (l : list A) : list A :=
  match l with
  | [] => []
  | x :: rest => insert_reverse x (sorted_reverse rest)
  end.

End Sorted.

Arguments insert_reverse {A} key x l.
Arguments sorted_reverse {A} key l.

(** One dictionary of the list [search] returns. *)
Record hit : Type := mkHit {
  hit_id : str;
  hit_similarity : float;
  hit_vector : vector;
  hit_metadata : dict pyval
}.

(** The similarities of a list of results do not increase. *)
Definition descending (similarities : list float) : Prop :=
  StronglySorted (fun x y => (y <=? x)%float = true) similarities.

(** [a] occurs in [l] at an earlier position than [b]. *)
Definition before {A : Type} (a b : A) (l : list A) : Prop :=
  exists l1 l2 l3, l = l1 ++ a :: l2 ++ b :: l3.

(** A store as the methods build it: the keys of a dictionary are distinct,
    and the two dictionaries hold the same ids in the same order. *)
Definition consistent (s : t) : Prop :=
  NoDup (dict_keys (vectors s))
  /\ dict_keys (metadata s) = dict_keys (vectors s).

Section Numpy.

(** [np.dot] on two one-dimensional arrays, which raises [ValueError] on
    shapes that do not match, and [np.linalg.norm]. *)
Variable np_dot : vector -> vector -> outcome float.
Variable np_linalg_norm : vector -> float.

(** [np.dot(query_vector, vector) / (np.linalg.norm(query_vector) *
    np.linalg.norm(vector))] *)
Definition cosine (query_vector vector : vector) : outcome float :=
  match np_dot query_vector vector with
  | Return d =>
      Return (d / (np_linalg_norm query_vector * np_linalg_norm vector))%float
  | Raise e => Raise e
  end.

(** The loop [for id, vector in self.vectors.items()] of [search]. *)
Fixpoint similarity_loop (query_vector : vector) (items : list (str * vector))
    (similarities : dict float) : M (dict float) :=
  match items with
  | [] => ret similarities
  | (id, vector) :: rest =>
      similarity <- pure (cosine query_vector vector) ;;
      similarity_loop query_vector rest (dict_set similarities id similarity)
  end.

(** [VectorStore.search] *)
Definition search (query_vector : vector) (top_k : Z) : M (list hit) :=
  vs <- read vectors ;;
  if negb (nonempty vs) then ret []
  else
    similarities <- similarity_loop query_vector vs [] ;;
    let top_ids := slice_to top_k (sorted_reverse snd similarities) in
    mapM (fun '(id, similarity) =>
            vs <- read vectors ;;
            v <- getitem vs id ;;
            ms <- read metadata ;;
            m <- getitem ms id ;;
            ret (mkHit id similarity v m))
         top_ids.

(** The similarity of every stored vector to the query is computed, the
    shapes agreeing, and is a number, not NaN. *)
Definition comparable (query_vector : vector) (s : t) : bool :=
  forallb (fun item =>
             match cosine query_vector (snd item) with
             | Return x => negb (is_nan x)
             | Raise _ => false
             end)
          (vectors s).

(** The similarity [search] computes for a stored vector. *)
Definition similarity_of (q v : vector) : float :=
  match cosine q v with
  | Return x => x
  | Raise _ => nan
  end.

(** An item of [self.vectors] as the item of [similarities] made from it. *)
Definition scored (q : vector) (item : str * vector) : str * float :=
  (fst item, similarity_of q (snd item)).

End Numpy.

(** The dictionary [search] builds for an id and its similarity. *)
Definition hit_of (s : t) (p : str * float) : hit :=
  mkHit (fst p) (snd p)
        (match dict_get (vectors s) (fst p) with Some v => v | None => [] end)
        (match dict_get (metadata s) (fst p) with Some m => m | None => [] end).

(** A call of one of the three methods that write to the store. *)
Inductive call : Type :=
  | Add (id : str) (vector : vector) (md : option (dict pyval))
  | Delete (id : str)
  | Clear.

(** The store a call leaves. *)
Definition after (c : call) (s : t) : t :=
  match c with
  | Add id v md => snd (add id v md s)
  | Delete id => snd (delete id s)
  | Clear => snd (clear s)
  end.

Definition after_all (calls : list call) (s : t) : t :=
  fold_left (fun s c => after c s) calls s.

(** The dot product and the Euclidean norm summed from left to right.  On
    vectors whose products and sums are exact in binary64, as for small
    integer components, every order of summation gives this value. *)
Definition dot_exact (a b : vector) : outcome float :=
  if Nat.eqb (length a) (length b)
  then Return (fold_left (fun acc xy => acc + fst xy * snd xy)%float
                         (combine a b) 0%float)
  else Raise ValueError.

Definition norm_exact (a : vector) : float :=
  sqrt (fold_left (fun acc x => acc + x * x)%float a 0%float).

End VectorStore.

(* ===================================================================== *)
(** * text_processor.py: the methods on dictionaries *)
(* ===================================================================== *)

Module Documents.

Definition CONTENT : str := py "content".

(** [v[:k]]; [None] stands for the exception a value that cannot be sliced
    raises. *)
Definition py_slice_to (k : Z) (v : pyval) : option pyval :=
  match v with
  | PStr s => Some (PStr (VectorStore.slice_to k s))
  | PList items => Some (PList (VectorStore.slice_to k items))
  | _ => None
  end.

(** [TextProcessor.process_document]: the document as the call leaves it,
    which is also the object it returns.  An exception raised in the body,
    by [len] or by the slice, is caught and the document returned as it
    is. *)
Definition process_document (self : TextProcessor.t) (document : dict pyval)
    : dict pyval :=
  let content := get_or document CONTENT (PStr []) in
  if negb (truthy content) then document
  else
    match py_len content with
    | None => document
    | Some n =>
        if n <? TextProcessor.min_length self then document
        else if n >? TextProcessor.max_length self then
          match py_slice_to (TextProcessor.max_length self) content with
          | Some content' => dict_set document CONTENT content'
          | None => document
          end
        else dict_set document CONTENT content
    end.

Inductive exn : Type :=
  | KeyError (key : str)
  | TypeError.

Inductive outcome (A : Type) : Type :=
  | Return (a : A)
  | Raise (e : exn).

Arguments Return {A} a.
Arguments Raise {A} e.

(** [self.min_length <= n <= self.max_length] *)
Definition within (self : TextProcessor.t) (n : Z) : bool :=
  (TextProcessor.min_length self <=? n) && (n <=? TextProcessor.max_length self).

(** [TextProcessor.filter_chunks] on the dictionaries it is given: the
    comprehension raises at the first chunk without a [content] or with a
    [content] that has no length. *)
Fixpoint filter_chunks (self : TextProcessor.t) (chunks : list (dict pyval))
    : outcome (list (dict pyval)) :=
  match chunks with
  | [] => Return []
  | chunk :: rest =>
      match dict_get chunk CONTENT with
      | None => Raise (KeyError CONTENT)
      | Some content =>
          match py_len content with
          | None => Raise TypeError
          | Some n =>
              match filter_chunks self rest with
              | Return kept => Return (if within self n then chunk :: kept else kept)
              | Raise e => Raise e
              end
          end
      end
  end.

(** The length of the content of a chunk, when it has one. *)
Definition content_length (chunk : dict pyval) : option Z :=
  match dict_get chunk CONTENT with
  | Some content => py_len content
  | None => None
  end.

(** The chunks [filter_chunks] keeps when it returns. *)
Definition in_bounds (self : TextProcessor.t) (chunk : dict pyval) : bool :=
  match content_length chunk with
  | Some n => within self n
  | None => false
  end.

End Documents.

(* ===================================================================== *)
(** * vector_store.py: the documents sent to the collection *)
(* ===================================================================== *)

Module Ingest.

(** The arguments [add_documents] builds for [self.collection.add]. *)
Record batch : Type := mkBatch {
  ids : list str;
  texts : list pyval;
  metadatas : list (dict pyval)
}.

(** The [metadata] dictionary of one document. *)
Definition doc_metadata (doc : dict pyval) : dict pyval :=
  [(py "source", get_or doc (py "source") (PStr (py "unknown")));
   (py "source_url", get_or doc (py "source_url") (PStr []));
   (py "field", get_or doc (py "field") (PStr (py "unknown")));
   (py "chunk_index", get_or doc (py "chunk_index") (PInt 0))].

Section Hash.

(** The builtin [hash]; [None] stands for the [TypeError] of a value that
    cannot be hashed. *)
Variable py_hash : pyval -> option Z.

(** [f"doc_{i}_{hash(doc.get('content', ''))}"] *)
Definition doc_id (i : nat) (doc : dict pyval) : option str :=
  match py_hash (get_or doc (py "content") (PStr [])) with
  | Some h => Some (py "doc_" ++ str_of_int (Z.of_nat i) ++ py "_" ++ str_of_int h)
  | None => None
  end.

(** The loop [for i, doc in enumerate(documents)] of [add_documents], from
    index [i] and the lists filled so far. *)
Fixpoint add_documents_loop (i : nat) (documents : list (dict pyval)) (b : batch)
    : option batch :=
  match documents with
  | [] => Some b
  | doc :: rest =>
      match doc_id i doc with
      | None => None
      | Some id =>
          add_documents_loop (S i) rest
            (mkBatch (ids b ++ [id])
                     (texts b ++ [get_or doc (py "content") (PStr [])])
                     (metadatas b ++ [doc_metadata doc]))
      end
  end.

(** [VectorStore.add_documents] up to the calls of the embedding model and
    of the collection: the ids, texts and metadata it prepares.  [None]
    stands for an exception, which the method catches and logs, nothing
    being added. *)
Definition add_documents_batch (documents : list (dict pyval)) : option batch :=
  add_documents_loop 0 documents (mkBatch [] [] []).

End Hash.

End Ingest.

(* ===================================================================== *)
(** * crawlers/psychonautwiki_crawler.py *)
(* ===================================================================== *)

Module PsychonautWikiCrawler.

Definition base_url : str := py "https://psychonautwiki.org/w/api.php".

(** The parameters of the first request. *)
Definition list_params : dict pyval :=
  [(py "action", PStr (py "query"));
   (py "list", PStr (py "categorymembers"));
   (py "cmtitle", PStr (py "Category:Substances"));
   (py "cmlimit", PInt 500);
   (py "format", PStr (py "json"))].

(** The parameters of the second request. *)
Definition detail_params (page_ids : list str) : dict pyval :=
  [(py "action", PStr (py "query"));
   (py "pageids", PStr (join (py "|") page_ids));
   (py "prop", PStr (py "extracts|info"));
   (py "inprop", PStr (py "url"));
   (py "exintro", PBool true);
   (py "explaintext", PBool true);
   (py "format", PStr (py "json"))].

(** The values a [for] loop takes from [v]; [None] stands for the
    [TypeError] of a value that cannot be iterated. *)
Definition iterate (v : pyval) : option (list pyval) :=
  match v with
  | PList items => Some items
  | PDict items => Some (map (fun kv => PStr (fst kv)) items)
  | PStr s => Some (map (fun c => PStr [c]) s)
  | _ => None
  end.

(** [v.items()]; [None] stands for the [AttributeError] of a value that is
    not a mapping. *)
Definition items_of (v : pyval) : option (list (str * pyval)) :=
  match v with
  | PDict items => Some items
  | _ => None
  end.

(** A list comprehension or loop body that may raise, over a list. *)
Fixpoint traverse {A B : Type} (f : A -> option B) (l : list A) : option (list B) :=
  match l with
  | [] => Some []
  | a :: rest =>
      match f a with
      | None => None
      | Some b =>
          match traverse f rest with
          | None => None
          | Some bs => Some (b :: bs)
          end
      end
  end.

(** The dictionary appended to [results] for one page. *)
Definition format_page (entry : str * pyval) : option (dict pyval) :=
  let '(page_id, page) := entry in
  match subscript page (py "title"), subscript page (py "fullurl"),
        subscript page (py "extract") with
  | Some title, Some url, Some content =>
      Some [(py "id", PStr page_id);
            (py "title", title);
            (py "url", url);
            (py "content", content)]
  | _, _, _ => None
  end.

(** A page of the second response and the document made from it. *)
Definition formatted (entry : str * pyval) (doc : dict pyval) : Prop :=
  exists title url content,
    subscript (snd entry) (py "title") = Some title
    /\ subscript (snd entry) (py "fullurl") = Some url
    /\ subscript (snd entry) (py "extract") = Some content
    /\ doc = [(py "id", PStr (fst entry)); (py "title", title);
              (py "url", url); (py "content", content)].

(** [response["query"]["pages"].items()] *)
Definition pages_of (response : pyval) : option (list (str * pyval)) :=
  match subscript response (py "query") with
  | Some query =>
      match subscript query (py "pages") with
      | Some pages => items_of pages
      | None => None
      end
  | None => None
  end.

Section Http.

(** [BaseCrawler.get], the parsed JSON of the response or [None] after any
    failure of the request, and the builtin [str]. *)
Variable http_get : str -> dict pyval -> option pyval.
Variable py_str : pyval -> str.

(** [[str(member["pageid"]) for member in
    response["query"]["categorymembers"]]] *)
Definition page_ids_of (response : pyval) : option (list str) :=
  match subscript response (py "query") with
  | Some query =>
      match subscript query (py "categorymembers") with
      | Some members =>
          match iterate members with
          | Some members =>
              traverse (fun member =>
                          match subscript member (py "pageid") with
                          | Some pageid => Some (py_str pageid)
                          | None => None
                          end)
                       members
          | None => None
          end
      | None => None
      end
  | None => None
  end.

(** The body of the [try] of [crawl]; [None] stands for an exception. *)
Definition crawl_body : option (list (dict pyval)) :=
  match http_get base_url list_params with
  | None => Some []
  | Some response =>
      if negb (truthy response) then Some []
      else
        match page_ids_of response with
        | None => None
        | Some page_ids =>
            match http_get base_url (detail_params page_ids) with
            | None => Some []
            | Some response =>
                if negb (truthy response) then Some []
                else
                  match pages_of response with
                  | None => None
                  | Some pages => traverse format_page pages
                  end
            end
        end
  end.

(** [PsychonautWikiCrawler.crawl] *)
Definition crawl : list (dict pyval) :=
  match crawl_body with
  | Some results => results
  | None => []
  end.

End Http.

End PsychonautWikiCrawler.

(* ===================================================================== *)
(** * The order of binary64 numbers *)
(* ===================================================================== *)

(** A rank of the values other than NaN whose lexicographic order is the
    order of the comparison. *)
Definition rank (f : spec_float) : Z * Z * Z :=
  match f with
  | S754_nan => (0, 0, 0)
  | S754_infinity true => (-2, 0, 0)
  | S754_infinity false => (2, 0, 0)
  | S754_zero _ => (0, 0, 0)
  | S754_finite true m e => (-1, - e, Z.neg m)
  | S754_finite false m e => (1, e, Z.pos m)
  end.

(** The lexicographic comparison of two ranks. *)
Definition lex_compare (a b : Z * Z * Z) : comparison :=
  let '(a1, a2, a3) := a in
  let '(b1, b2, b3) := b in
  match a1 ?= b1 with
  | Eq => match a2 ?= b2 with
          | Eq => a3 ?= b3
          | c => c
          end
  | c => c
  end.

(* ===================================================================== *)
(** * Data of the examples *)
(* ===================================================================== *)

(** Four records, two of them equally similar to the query [[1, 0]]. *)
Definition four_records : VectorStore.t :=
  VectorStore.after_all
    [VectorStore.Add (py "a") [1; 0]%float None;
     VectorStore.Add (py "b") [0; 1]%float None;
     VectorStore.Add (py "c") [1; 1]%float None;
     VectorStore.Add (py "d") [2; 0]%float None]
    VectorStore.empty.

(** Three records, the second one a zero vector. *)
Definition with_zero_vector : VectorStore.t :=
  VectorStore.after_all
    [VectorStore.Add (py "a") [1; 1]%float None;
     VectorStore.Add (py "z") [0; 0]%float None;
     VectorStore.Add (py "b") [1; 0]%float None]
    VectorStore.empty.

(** Three other records, the second one a zero vector again. *)
Definition with_zero_norm : VectorStore.t :=
  VectorStore.after_all
    [VectorStore.Add (py "u") [0; 2]%float None;
     VectorStore.Add (py "o") [0; 0]%float None;
     VectorStore.Add (py "w") [3; 0]%float None]
    VectorStore.empty.

(** Two records of different shapes. *)
Definition mixed_shapes : VectorStore.t :=
  VectorStore.after_all
    [VectorStore.Add (py "a") [1; 0]%float None;
     VectorStore.Add (py "b") [1; 0; 0]%float None]
    VectorStore.empty.

(** A document with a title and a content of ten characters. *)
Definition ten_letters : dict pyval :=
  [(py "title", PStr (py "Letters")); (py "content", PStr (py "abcdefghij"))].

(** Three chunks, of 3, 1 and 9 characters, and one without a content. *)
Definition three_chunks : list (dict pyval) :=
  [[(py "content", PStr (py "abc")); (py "chunk_index", PInt 0)];
   [(py "content", PStr (py "a")); (py "chunk_index", PInt 1)];
   [(py "content", PStr (py "abcdefghi")); (py "chunk_index", PInt 2)]].

Definition no_content : dict pyval := [(py "chunk_index", PInt 3)].

(** An environment with one variable, and a configuration that names it. *)
Definition home_only (name : str) : option str :=
  if str_eqb name (py "HOME") then Some (py "/root") else None.

Definition with_placeholders : pyval :=
  PDict [(py "vector_db",
          PDict [(py "persist_directory", PStr (py "${HOME}"));
                 (py "collection_name", PStr (py "drugs"))]);
         (py "keys", PList [PStr (py "${OPENAI_API_KEY}"); PInt 3])].

(** A stand-in for [hash] on the examples: strings and integers have a
    hash, lists and mappings have none. *)
Definition length_hash (v : pyval) : option Z :=
  match v with
  | PStr s => Some (len s - 3)
  | PInt z => Some z
  | PList _ | PDict _ => None
  | _ => Some 0
  end.

Definition two_documents : list (dict pyval) :=
  [[(py "content", PStr (py "hello")); (py "source", PStr (py "wikipedia"))];
   [(py "text", PStr (py "world"))]].

(** A server that lists two members and describes the pages asked for; in
    [incomplete_server] the second page has no extract. *)
Definition members_response : pyval :=
  PDict [(py "query",
          PDict [(py "categorymembers",
                  PList [PDict [(py "pageid", PInt 1)];
                         PDict [(py "pageid", PInt 2)]])])].

Definition page (title : string) (with_extract : bool) : pyval :=
  PDict ([(py "title", PStr (py title)); (py "fullurl", PStr (py "u"))]
         ++ if with_extract then [(py "extract", PStr (py "e"))] else []).

Definition pages_response (complete : bool) : pyval :=
  PDict [(py "query",
          PDict [(py "pages",
                  PDict [(py "1", page "A" true); (py "2", page "B" complete)])])].

Definition server (complete : bool) (url : str) (params : dict pyval) : option pyval :=
  match dict_get params (py "pageids") with
  | None => Some members_response
  | Some _ => Some (pages_response complete)
  end.

Definition int_str (v : pyval) : str :=
  match v with
  | PInt z => str_of_int z
  | _ => []
  end.

(** A configuration with a nested section. *)
Definition nested_config : Config.t :=
  Config.mk
    [(py "vector_db",
      PDict [(py "persist_directory", PStr (py "data/chroma"));
             (py "collection_name", PStr (py "drugs"))])].

(* ===================================================================== *)
(** * Properties of the text segmentation *)
(* ===================================================================== *)

Section SplitText.

Import TextProcessor.

Variable isspace : char -> bool.
Variable isalnum : char -> bool.
Variable self : TextProcessor.t.
Variable chunk_size : Z.

Lemma len_nonneg (s : str) : 0 <= len s.
Proof. unfold len. lia. Qed.

Lemma flush_retained (current out : list str) :
  flush self current out = out ++ retained self [current].
Proof.
  unfold flush, retained. simpl.
  destruct (len (join [SPACE] current) >=? min_length self).
  - reflexivity.
  - now rewrite app_nil_r.
Qed.

Lemma retained_app (g1 g2 : list (list str)) :
  retained self (g1 ++ g2) = retained self g1 ++ retained self g2.
Proof. unfold retained. now rewrite map_app, filter_app. Qed.

Lemma retained_bounded (groups : list (list str)) :
  Forall (fun chunk => min_length self <= len chunk) (retained self groups).
Proof.
  unfold retained. apply Forall_forall. intros c Hc.
  apply filter_In in Hc. destruct Hc as [_ Hc].
  apply Z.geb_le in Hc. exact Hc.
Qed.

(** The loop and the handling of the last chunk, read through [grouping]. *)
Lemma loop_grouping (sentences : list str) (st : loop) :
  let st' := fold_left (iteration self chunk_size) sentences st in
  (if nonempty (current_chunk st')
   then flush self (current_chunk st') (chunks st')
   else chunks st')
  = chunks st
    ++ retained self (grouping chunk_size (current_chunk st) (current_length st) sentences).
Proof.
  revert st. induction sentences as [|sentence rest IH]; intros st; simpl.
  - destruct (nonempty (current_chunk st)).
    + apply flush_retained.
    + unfold retained. simpl. now rewrite app_nil_r.
  - rewrite IH. unfold iteration.
    destruct ((current_length st + len sentence >? chunk_size)
              && nonempty (current_chunk st)); simpl.
    + rewrite flush_retained, <- app_assoc.
      f_equal. symmetry.
      apply (retained_app [current_chunk st]).
    + reflexivity.
Qed.

Lemma grouping_concat (sentences current : list str) (n : Z) :
  concat (grouping chunk_size current n sentences) = current ++ sentences.
Proof.
  revert current n. induction sentences as [|sentence rest IH]; intros current n; simpl.
  - destruct current; simpl; now rewrite ?app_nil_r.
  - destruct ((n + len sentence >? chunk_size) && nonempty current); simpl.
    + now rewrite IH.
    + now rewrite IH, <- app_assoc.
Qed.

Lemma grouping_alone (sentence : str) (rest : list str) (n : Z) :
  chunk_size < n ->
  In [sentence] (grouping chunk_size [sentence] n rest).
Proof.
  intros Hn. destruct rest as [|next rest]; simpl.
  - now left.
  - pose proof (len_nonneg next).
    replace (n + len next >? chunk_size) with true.
    + now left.
    + symmetry. apply Z.gtb_lt. lia.
Qed.

Lemma grouping_long (sentence : str) (sentences current : list str) (n : Z) :
  0 <= n ->
  In sentence sentences ->
  chunk_size < len sentence ->
  In [sentence] (grouping chunk_size current n sentences).
Proof.
  revert current n.
  induction sentences as [|s rest IH]; intros current n Hn Hin Hlong; simpl.
  - contradiction.
  - pose proof (len_nonneg s).
    destruct Hin as [-> | Hin].
    + replace (n + len sentence >? chunk_size) with true
        by (symmetry; apply Z.gtb_lt; lia).
      destruct current as [|c cs]; simpl.
      * apply grouping_alone. lia.
      * right. apply grouping_alone. lia.
    + destruct ((n + len s >? chunk_size) && nonempty current); simpl.
      * right. apply IH; trivial; lia.
      * apply IH; trivial; lia.
Qed.

(** [split_text] on a text that is not empty. *)
Lemma split_text_grouping (text : str) (overlap : Z) :
  text <> [] ->
  split_text isspace isalnum self text chunk_size overlap
  = retained self (grouping chunk_size [] 0 (re_split isspace (clean_text isspace isalnum text))).
Proof.
  intros Htext. destruct text as [|c text]; [contradiction|].
  unfold split_text.
  exact (loop_grouping (re_split isspace (clean_text isspace isalnum (c :: text)))
                       (mkLoop [] [] 0)).
Qed.

(** C1. Every chunk [split_text] returns has at least [min_length]
    characters, the bound given to the constructor, whatever the text, the
    overlap and the positive chunk size. *)
Theorem split_text_min_length (text : str) (overlap : Z) :
  0 < chunk_size ->
  Forall (fun chunk => min_length self <= len chunk)
         (split_text isspace isalnum self text chunk_size overlap).
Proof.
  intros _. destruct text as [|c text].
  - constructor.
  - rewrite split_text_grouping by discriminate. apply retained_bounded.
Qed.

(** C6. A sentence of the cleaned text that is longer than [chunk_size] is
    a chunk by itself: the chunks are the joins of groups of whole
    consecutive sentences, the long sentence is one of the groups alone,
    and it is returned when it has at least [min_length] characters. *)
Theorem long_sentence_own_chunk (text : str) (overlap : Z) (sentence : str) :
  0 < chunk_size ->
  In sentence (re_split isspace (clean_text isspace isalnum text)) ->
  chunk_size < len sentence ->
  exists groups : list (list str),
    concat groups = re_split isspace (clean_text isspace isalnum text)
    /\ split_text isspace isalnum self text chunk_size overlap
       = filter (fun chunk => len chunk >=? min_length self)
                (map (join [SPACE]) groups)
    /\ In [sentence] groups
    /\ (min_length self <= len sentence ->
        In sentence (split_text isspace isalnum self text chunk_size overlap)).
Proof.
  intros Hsize Hin Hlong.
  assert (Htext : text <> []).
  { intros ->. simpl in Hin. destruct Hin as [<- | []].
    unfold len in Hlong. simpl in Hlong. lia. }
  set (sentences := re_split isspace (clean_text isspace isalnum text)) in *.
  exists (grouping chunk_size [] 0 sentences).
  assert (Hown : In [sentence] (grouping chunk_size [] 0 sentences))
    by (apply grouping_long; trivial; lia).
  repeat split.
  - apply grouping_concat.
  - now apply split_text_grouping.
  - exact Hown.
  - intros Hmin. rewrite split_text_grouping by exact Htext.
    unfold retained. apply filter_In. split.
    + change sentence with (join [SPACE] [sentence]).
      now apply in_map.
    + apply Z.geb_le. exact Hmin.
Qed.

(** C8. The chunks do not depend on [overlap]; they are the retained joins
    of groups that partition the sentences [split_text] computes (none for
    the empty text), so that no sentence is carried into a second chunk. *)
Theorem split_text_ignores_overlap (text : str) (o1 o2 : Z) :
  split_text isspace isalnum self text chunk_size o1
  = split_text isspace isalnum self text chunk_size o2
  /\ exists groups : list (list str),
       concat groups
       = match text with
         | [] => []
         | _ => re_split isspace (clean_text isspace isalnum text)
         end
       /\ split_text isspace isalnum self text chunk_size o1
          = filter (fun chunk => len chunk >=? min_length self)
                   (map (join [SPACE]) groups).
Proof.
  split; [reflexivity|].
  destruct text as [|c text].
  - exists []. split; reflexivity.
  - exists (grouping chunk_size [] 0 (re_split isspace (clean_text isspace isalnum (c :: text)))).
    split.
    + apply grouping_concat.
    + apply split_text_grouping. discriminate.
Qed.

(** [filter_chunks] keeps the contents whose length lies between the two
    bounds, in their order. *)
Lemma filter_chunks_bounds (contents : list str) (c : str) :
  In c (filter_chunks self contents)
  <-> In c contents /\ min_length self <= len c <= max_length self.
Proof.
  unfold filter_chunks. rewrite filter_In, andb_true_iff, !Z.leb_le. tauto.
Qed.

End SplitText.

(* ===================================================================== *)
(** * Properties of the order of binary64 numbers *)
(* ===================================================================== *)

Section FloatOrder.

Lemma SFcompare_rank (x y : spec_float) :
  x <> S754_nan -> y <> S754_nan ->
  SFcompare x y = Some (lex_compare (rank x) (rank y)).
Proof.
  intros Hx Hy.
  destruct x as [sx|sx| |sx mx ex], y as [sy|sy| |sy my ey];
    try congruence;
    try (destruct sx); try (destruct sy); try reflexivity.
  simpl. rewrite Z.compare_opp, (Z.compare_antisym ex ey).
  destruct (ex ?= ey); reflexivity.
Qed.

Lemma lex_compare_le_trans (a b c : Z * Z * Z) :
  lex_compare a b <> Gt -> lex_compare b c <> Gt -> lex_compare a c <> Gt.
Proof.
  destruct a as [[a1 a2] a3], b as [[b1 b2] b3], c as [[c1 c2] c3].
  unfold lex_compare.
  destruct (Z.compare_spec a1 b1), (Z.compare_spec b1 c1), (Z.compare_spec a1 c1);
    try lia; try congruence;
    destruct (Z.compare_spec a2 b2), (Z.compare_spec b2 c2), (Z.compare_spec a2 c2);
    try lia; try congruence;
    destruct (Z.compare_spec a3 b3), (Z.compare_spec b3 c3), (Z.compare_spec a3 c3);
    try lia; congruence.
Qed.

Lemma lex_compare_antisym (a b : Z * Z * Z) :
  lex_compare b a = CompOpp (lex_compare a b).
Proof.
  destruct a as [[a1 a2] a3], b as [[b1 b2] b3].
  unfold lex_compare.
  rewrite (Z.compare_antisym a1 b1), (Z.compare_antisym a2 b2), (Z.compare_antisym a3 b3).
  destruct (a1 ?= b1), (a2 ?= b2), (a3 ?= b3); reflexivity.
Qed.

Lemma not_nan_spec (x : float) : is_nan x = false -> Prim2SF x <> S754_nan.
Proof.
  unfold is_nan. rewrite eqb_spec. intros H E. rewrite E in H. discriminate.
Qed.

Lemma leb_nan_l (x y : float) : (x <=? y)%float = true -> is_nan x = false.
Proof.
  rewrite leb_spec. unfold is_nan. rewrite eqb_spec. unfold SFleb, SFeqb.
  destruct (Prim2SF x) as [s|s| |s m e]; simpl; try discriminate; trivial.
  - destruct s; reflexivity.
  - intros _. destruct s; rewrite Z.compare_refl, Pos.compare_cont_refl; reflexivity.
Qed.

Lemma compare_floats (x y : float) :
  is_nan x = false -> is_nan y = false ->
  SFcompare (Prim2SF x) (Prim2SF y)
  = Some (lex_compare (rank (Prim2SF x)) (rank (Prim2SF y))).
Proof. intros Hx Hy. apply SFcompare_rank; now apply not_nan_spec. Qed.

Lemma ltb_leb (x y : float) : (x <? y)%float = true -> (x <=? y)%float = true.
Proof.
  rewrite ltb_spec, leb_spec. unfold SFltb, SFleb.
  destruct (SFcompare (Prim2SF x) (Prim2SF y)) as [[| |]|]; congruence.
Qed.

Lemma leb_total (x y : float) :
  is_nan x = false -> is_nan y = false ->
  (x <? y)%float = false -> (y <=? x)%float = true.
Proof.
  intros Hx Hy. rewrite ltb_spec, leb_spec. unfold SFltb, SFleb.
  rewrite (compare_floats x y Hx Hy), (compare_floats y x Hy Hx).
  rewrite (lex_compare_antisym (rank (Prim2SF x)) (rank (Prim2SF y))).
  destruct (lex_compare (rank (Prim2SF x)) (rank (Prim2SF y))); simpl; congruence.
Qed.

Lemma leb_nan_r (x y : float) : (x <=? y)%float = true -> is_nan y = false.
Proof.
  rewrite leb_spec. unfold is_nan. rewrite eqb_spec. unfold SFleb, SFeqb.
  destruct (Prim2SF y) as [s|s| |s m e]; simpl.
  - reflexivity.
  - destruct s; reflexivity.
  - destruct (Prim2SF x); discriminate.
  - intros _. destruct s; rewrite Z.compare_refl, Pos.compare_cont_refl; reflexivity.
Qed.

Lemma leb_trans (x y z : float) :
  (x <=? y)%float = true -> (y <=? z)%float = true -> (x <=? z)%float = true.
Proof.
  intros Hxy Hyz.
  pose proof (leb_nan_l _ _ Hxy) as Hx. pose proof (leb_nan_r _ _ Hxy) as Hy.
  pose proof (leb_nan_r _ _ Hyz) as Hz.
  revert Hxy Hyz. rewrite !leb_spec. unfold SFleb.
  rewrite (compare_floats x y Hx Hy), (compare_floats y z Hy Hz),
    (compare_floats x z Hx Hz).
  pose proof (lex_compare_le_trans (rank (Prim2SF x)) (rank (Prim2SF y))
                (rank (Prim2SF z))) as T.
  destruct (lex_compare (rank (Prim2SF x)) (rank (Prim2SF y)));
    destruct (lex_compare (rank (Prim2SF y)) (rank (Prim2SF z)));
    destruct (lex_compare (rank (Prim2SF x)) (rank (Prim2SF z)));
    intros; try reflexivity; try discriminate;
    exfalso; apply T; congruence.
Qed.

Lemma eqb_not_nan (x y : float) :
  (x =? y)%float = true -> is_nan x = false /\ is_nan y = false.
Proof.
  intros H.
  assert (L : (x <=? y)%float = true).
  { revert H. rewrite eqb_spec, leb_spec. unfold SFeqb, SFleb.
    destruct (SFcompare (Prim2SF x) (Prim2SF y)) as [[| |]|]; congruence. }
  split; [exact (leb_nan_l x y L) | exact (leb_nan_r x y L)].
Qed.

Lemma eqb_not_ltb (x y : float) :
  (x =? y)%float = true -> (y <? x)%float = false.
Proof.
  intros H. destruct (eqb_not_nan x y H) as [Hx Hy].
  revert H. rewrite eqb_spec, ltb_spec. unfold SFeqb, SFltb.
  rewrite (compare_floats x y Hx Hy), (compare_floats y x Hy Hx).
  rewrite (lex_compare_antisym (rank (Prim2SF x)) (rank (Prim2SF y))).
  destruct (lex_compare (rank (Prim2SF x)) (rank (Prim2SF y)));
    simpl; congruence.
Qed.

End FloatOrder.

(* ===================================================================== *)
(** * Sorting in reverse order of a key *)
(* ===================================================================== *)

Section BeforeFacts.

Import VectorStore.

Variable A : Type.

Lemma before_cons (a b y : A) (l : list A) :
  before a b (y :: l) <-> (a = y /\ In b l) \/ before a b l.
Proof.
  split.
  - intros (l1 & l2 & l3 & E). destruct l1 as [|y' l1]; simpl in E.
    + injection E as -> ->. left. split; [reflexivity | apply in_elt].
    + injection E as -> ->. right. now exists l1, l2, l3.
  - intros [[-> Hb] | (l1 & l2 & l3 & ->)].
    + apply in_split in Hb. destruct Hb as (l2 & l3 & ->).
      now exists [], l2, l3.
    + now exists (y :: l1), l2, l3.
Qed.

Lemma before_nil (a b : A) : ~ before a b [].
Proof. intros (l1 & l2 & l3 & E). destruct l1; discriminate. Qed.

Lemma before_firstn (a b : A) (n : nat) (l : list A) :
  before a b (firstn n l) -> before a b l.
Proof.
  intros (l1 & l2 & l3 & E).
  exists l1, l2, (l3 ++ skipn n l).
  rewrite <- (firstn_skipn n l) at 1. rewrite E.
  now rewrite <- !app_assoc, <- !app_comm_cons, <- app_assoc.
Qed.

End BeforeFacts.

Lemma before_map (A B : Type) (f : A -> B) (a' b' : B) (l : list A) :
  VectorStore.before a' b' (map f l) ->
  exists a b, f a = a' /\ f b = b' /\ VectorStore.before a b l.
Proof.
  intros (l1 & l2 & l3 & E).
  apply map_eq_app in E. destruct E as (m1 & r1 & -> & _ & E).
  apply map_eq_cons in E. destruct E as (a & r2 & -> & Ha & E).
  apply map_eq_app in E. destruct E as (m2 & r3 & -> & _ & E).
  apply map_eq_cons in E. destruct E as (b & m3 & -> & Hb & _).
  exists a, b. repeat split; trivial. now exists m1, m2, m3.
Qed.

Section SortedFacts.

Import VectorStore.

Variable A : Type.
Variable key : A -> float.

Lemma insert_reverse_perm (x : A) (l : list A) :
  Permutation (insert_reverse key x l) (x :: l).
Proof.
  induction l as [|y rest IH]; simpl.
  - reflexivity.
  - destruct (key x <? key y)%float.
    + rewrite IH. apply perm_swap.
    + reflexivity.
Qed.

Lemma sorted_reverse_perm (l : list A) : Permutation (sorted_reverse key l) l.
Proof.
  induction l as [|x rest IH]; simpl.
  - reflexivity.
  - rewrite insert_reverse_perm. now constructor.
Qed.

Lemma insert_reverse_descending (x : A) (l : list A) :
  Forall (fun a => is_nan (key a) = false) (x :: l) ->
  descending (map key l) ->
  descending (map key (insert_reverse key x l)).
Proof.
  unfold descending.
  induction l as [|y rest IH]; simpl; intros Hnum Hs.
  - repeat constructor.
  - apply StronglySorted_inv in Hs. destruct Hs as [Hs Hy].
    pose proof (Forall_inv Hnum) as Hx. simpl in Hx.
    pose proof (Forall_inv (Forall_inv_tail Hnum)) as Hy'. simpl in Hy'.
    destruct (key x <? key y)%float eqn:E; simpl.
    + constructor.
      * apply IH; trivial.
        constructor; [exact Hx | exact (Forall_inv_tail (Forall_inv_tail Hnum))].
      * eapply Permutation_Forall.
        -- apply Permutation_map, Permutation_sym, insert_reverse_perm.
        -- simpl. constructor; [now apply ltb_leb | exact Hy].
    + constructor.
      * now constructor.
      * pose proof (leb_total (key x) (key y) Hx Hy' E) as Hyx.
        constructor; [exact Hyx|].
        eapply Forall_impl; [|exact Hy]. simpl. intros z Hz.
        now apply leb_trans with (key y).
Qed.

Lemma sorted_reverse_descending (l : list A) :
  Forall (fun a => is_nan (key a) = false) l ->
  descending (map key (sorted_reverse key l)).
Proof.
  induction l as [|x rest IH]; simpl; intros Hnum.
  - constructor.
  - apply insert_reverse_descending.
    + constructor; [exact (Forall_inv Hnum)|].
      eapply Permutation_Forall.
      * apply Permutation_sym, sorted_reverse_perm.
      * exact (Forall_inv_tail Hnum).
    + apply IH. exact (Forall_inv_tail Hnum).
Qed.

(** Where [insert_reverse] puts [x]: behind items of a greater key only. *)
Lemma before_insert_reverse (a b x : A) (l : list A) :
  before a b (insert_reverse key x l) ->
  before a b l
  \/ (a = x /\ In b l)
  \/ (b = x /\ In a l /\ (key x <? key a)%float = true).
Proof.
  induction l as [|y rest IH]; simpl.
  - intros H. apply before_cons in H. destruct H as [[_ []] | H].
    now apply before_nil in H.
  - destruct (key x <? key y)%float eqn:E; intros H; apply before_cons in H.
    + destruct H as [[-> Hb] | H].
      * apply (Permutation_in _ (insert_reverse_perm x rest)) in Hb.
        destruct Hb as [<- | Hb].
        -- right. right. repeat split; trivial. now left.
        -- left. apply before_cons. now left.
      * destruct (IH H) as [H' | [[-> Hb] | (-> & Ha & Hlt)]].
        -- left. apply before_cons. now right.
        -- right. left. split; trivial. now right.
        -- right. right. repeat split; trivial. now right.
    + destruct H as [[-> Hb] | H].
      * right. left. now split.
      * now left.
Qed.

(** The sort is stable: items of equal keys keep their order. *)
Lemma before_sorted_reverse (a b : A) (l : list A) :
  before a b (sorted_reverse key l) ->
  (key a =? key b)%float = true ->
  before a b l.
Proof.
  induction l as [|x rest IH]; simpl; intros H Heq.
  - now apply before_nil in H.
  - apply before_insert_reverse in H.
    destruct H as [H | [[-> Hb] | (-> & Ha & Hlt)]].
    + apply before_cons. right. now apply IH.
    + apply before_cons. left. split; trivial.
      now apply (Permutation_in _ (sorted_reverse_perm rest)).
    + apply eqb_not_ltb in Heq. congruence.
Qed.

End SortedFacts.

(* ===================================================================== *)
(** * Dictionaries *)
(* ===================================================================== *)

Lemma str_eqb_eq (a b : str) : str_eqb a b = true <-> a = b.
Proof.
  revert b. induction a as [|x a IH]; intros [|y b]; simpl;
    try (split; [discriminate | discriminate]); try tauto.
  unfold char_eqb. rewrite andb_true_iff, N.eqb_eq, IH.
  split; [intros [-> ->]; reflexivity | intros E; injection E; auto].
Qed.

Lemma str_eqb_refl (a : str) : str_eqb a a = true.
Proof. now apply str_eqb_eq. Qed.

Lemma keys_mem_in (ks : list str) (k : str) : keys_mem ks k = true <-> In k ks.
Proof.
  induction ks as [|k' rest IH]; simpl.
  - split; [discriminate | tauto].
  - destruct (str_eqb k' k) eqn:E.
    + apply str_eqb_eq in E. tauto.
    + rewrite IH. split; [tauto|]. intros [-> | H]; trivial.
      now rewrite str_eqb_refl in E.
Qed.

Lemma keys_set_in (ks : list str) (k x : str) :
  In x (keys_set ks k) -> x = k \/ In x ks.
Proof.
  induction ks as [|k' rest IH]; simpl.
  - intros [<- | []]. now left.
  - destruct (str_eqb k' k); simpl; intros H.
    + now right.
    + destruct H as [-> | H]; [tauto|]. destruct (IH H); tauto.
Qed.

Lemma keys_remove_in (ks : list str) (k x : str) :
  In x (keys_remove ks k) -> In x ks.
Proof.
  induction ks as [|k' rest IH]; simpl; trivial.
  destruct (str_eqb k' k); simpl; intros H; [tauto|].
  destruct H; [tauto | right; auto].
Qed.

Lemma keys_set_nodup (ks : list str) (k : str) : NoDup ks -> NoDup (keys_set ks k).
Proof.
  induction 1 as [|k' rest Hnot Hnd IH]; simpl.
  - repeat constructor. tauto.
  - destruct (str_eqb k' k) eqn:E.
    + now constructor.
    + constructor; trivial. intros H. apply keys_set_in in H.
      destruct H as [-> | H]; [|tauto]. now rewrite str_eqb_refl in E.
Qed.

Lemma keys_remove_nodup (ks : list str) (k : str) :
  NoDup ks -> NoDup (keys_remove ks k).
Proof.
  induction 1 as [|k' rest Hnot Hnd IH]; simpl.
  - constructor.
  - destruct (str_eqb k' k); trivial.
    constructor; trivial. intros H. now apply keys_remove_in in H.
Qed.

Section DictFacts.

Variable V : Type.

Lemma dict_contains_mem (d : dict V) (k : str) :
  dict_contains d k = keys_mem (dict_keys d) k.
Proof.
  unfold dict_contains.
  induction d as [|[k' v'] rest IH]; simpl; trivial.
  now destruct (str_eqb k' k).
Qed.

Lemma dict_contains_in (d : dict V) (k : str) :
  dict_contains d k = true <-> In k (dict_keys d).
Proof. rewrite dict_contains_mem. apply keys_mem_in. Qed.

Lemma dict_keys_set (d : dict V) (k : str) (v : V) :
  dict_keys (dict_set d k v) = keys_set (dict_keys d) k.
Proof.
  induction d as [|[k' v'] rest IH]; simpl; trivial.
  destruct (str_eqb k' k); simpl; [reflexivity | now rewrite IH].
Qed.

Lemma dict_keys_remove (d : dict V) (k : str) :
  dict_keys (dict_remove d k) = keys_remove (dict_keys d) k.
Proof.
  induction d as [|[k' v'] rest IH]; simpl; trivial.
  destruct (str_eqb k' k); simpl; [reflexivity | now rewrite IH].
Qed.

Lemma dict_contains_set (d : dict V) (k : str) (v : V) :
  dict_contains (dict_set d k v) k = true.
Proof.
  unfold dict_contains.
  induction d as [|[k' v'] rest IH]; simpl.
  - now rewrite str_eqb_refl.
  - destruct (str_eqb k' k) eqn:E; simpl; rewrite E; trivial.
Qed.

Lemma dict_set_fresh (d : dict V) (k : str) (v : V) :
  dict_contains d k = false -> dict_set d k v = d ++ [(k, v)].
Proof.
  unfold dict_contains.
  induction d as [|[k' v'] rest IH]; simpl; trivial.
  destruct (str_eqb k' k); [discriminate|]. intros H. now rewrite IH.
Qed.

Lemma dict_remove_set (d : dict V) (k : str) (v : V) :
  dict_contains d k = false -> dict_remove (dict_set d k v) k = d.
Proof.
  unfold dict_contains.
  induction d as [|[k' v'] rest IH]; simpl.
  - now rewrite str_eqb_refl.
  - destruct (str_eqb k' k) eqn:E; [discriminate|]. intros H.
    simpl. rewrite E. now rewrite IH.
Qed.

Lemma dict_get_in (d : dict V) (k : str) (v : V) :
  dict_get d k = Some v -> In (k, v) d.
Proof.
  induction d as [|[k' v'] rest IH]; simpl; [discriminate|].
  destruct (str_eqb k' k) eqn:E.
  - apply str_eqb_eq in E. intros H. injection H as ->. subst. now left.
  - intros H. right. now apply IH.
Qed.

Lemma dict_get_nodup (d : dict V) (k : str) (v : V) :
  NoDup (dict_keys d) -> In (k, v) d -> dict_get d k = Some v.
Proof.
  induction d as [|[k' v'] rest IH]; simpl; [tauto|].
  intros Hnd [H | H].
  - injection H as -> ->. now rewrite str_eqb_refl.
  - apply NoDup_cons_iff in Hnd. destruct Hnd as [Hnot Hnd].
    destruct (str_eqb k' k) eqn:E.
    + apply str_eqb_eq in E. subst. exfalso. apply Hnot.
      change k with (fst (k, v)). now apply in_map.
    + now apply IH.
Qed.

End DictFacts.

Lemma dict_contains_same_keys (V W : Type) (d : dict V) (d' : dict W) (k : str) :
  dict_keys d = dict_keys d' -> dict_contains d k = dict_contains d' k.
Proof. intros E. now rewrite !dict_contains_mem, E. Qed.

(* ===================================================================== *)
(** * Properties of the writes to the index *)
(* ===================================================================== *)

Section StoreFacts.

Import VectorStore.

Lemma add_store (id : str) (v : vector) (md : option (dict pyval)) (s : t) :
  add id v md s
  = (Return tt,
     mk (dict_set (vectors s) id v) (dict_set (metadata s) id (or_empty md))).
Proof. reflexivity. Qed.

Lemma clear_store (s : t) : clear s = (Return tt, empty).
Proof. reflexivity. Qed.

Lemma delete_absent (id : str) (s : t) :
  dict_contains (vectors s) id = false -> delete id s = (Return false, s).
Proof. intros H. unfold delete, bind, read. now rewrite H. Qed.

Lemma delete_present (id : str) (s : t) :
  dict_contains (vectors s) id = true ->
  dict_contains (metadata s) id = true ->
  delete id s
  = (Return true, mk (dict_remove (vectors s) id) (dict_remove (metadata s) id)).
Proof.
  intros Hv Hm.
  unfold delete, del_vectors, del_metadata, dict_del, bind, read, write.
  simpl. rewrite Hv. simpl. rewrite Hv. simpl. rewrite Hm. reflexivity.
Qed.

Lemma consistent_contains (s : t) (id : str) :
  consistent s -> dict_contains (metadata s) id = dict_contains (vectors s) id.
Proof. intros [_ E]. now apply dict_contains_same_keys. Qed.

Lemma empty_consistent : consistent empty.
Proof. split; [constructor | reflexivity]. Qed.

Lemma after_consistent (c : call) (s : t) : consistent s -> consistent (after c s).
Proof.
  intros Hs. pose proof Hs as [Hnd E]. destruct c as [id v md | id | ]; unfold after.
  - rewrite add_store. split; simpl.
    + rewrite dict_keys_set. now apply keys_set_nodup.
    + now rewrite !dict_keys_set, E.
  - destruct (dict_contains (vectors s) id) eqn:Hv.
    + rewrite delete_present; trivial.
      * split; simpl.
        -- rewrite dict_keys_remove. now apply keys_remove_nodup.
        -- now rewrite !dict_keys_remove, E.
      * now rewrite consistent_contains.
    + now rewrite delete_absent.
  - rewrite clear_store. apply empty_consistent.
Qed.

Lemma after_all_consistent (calls : list call) (s : t) :
  consistent s -> consistent (after_all calls s).
Proof.
  revert s. induction calls as [|c calls IH]; intros s Hs; simpl; trivial.
  apply IH. now apply after_consistent.
Qed.

(** C4. In every store that calls of [add], [delete] and [clear] build
    from the empty one, an id holds a vector exactly when it holds a
    metadata entry. *)
Theorem vectors_and_metadata_share_ids (calls : list call) (id : str) :
  In id (dict_keys (vectors (after_all calls empty)))
  <-> In id (dict_keys (metadata (after_all calls empty))).
Proof.
  destruct (after_all_consistent calls empty empty_consistent) as [_ E].
  now rewrite E.
Qed.

(** C7, as the code has it. In a consistent store that does not hold [id],
    [add] of [id] followed by [delete] of [id] returns [True] and leaves
    the store as it was before the [add]. *)
Theorem add_then_delete_restores (s : t) (id : str) (v : vector)
    (md : option (dict pyval)) :
  consistent s ->
  dict_contains (vectors s) id = false ->
  (add id v md ;; delete id) s = (Return true, s).
Proof.
  intros Hs Hv.
  assert (Hm : dict_contains (metadata s) id = false)
    by now rewrite consistent_contains.
  unfold bind at 1. rewrite add_store.
  rewrite delete_present; simpl; try apply dict_contains_set.
  rewrite !dict_remove_set; trivial. now destruct s.
Qed.

End StoreFacts.

(* ===================================================================== *)
(** * Properties of the reads of the index *)
(* ===================================================================== *)

Section ReadOnly.

Import VectorStore.

Lemma readonly_ret (A : Type) (a : A) : readonly (ret a).
Proof. intros s. reflexivity. Qed.

Lemma readonly_raise (A : Type) (e : exn) : readonly (@raise A e).
Proof. intros s. reflexivity. Qed.

Lemma readonly_pure (A : Type) (o : outcome A) : readonly (pure o).
Proof. intros s. reflexivity. Qed.

Lemma readonly_read (A : Type) (field : t -> A) : readonly (read field).
Proof. intros s. reflexivity. Qed.

Lemma readonly_bind (A B : Type) (m : M A) (f : A -> M B) :
  readonly m -> (forall a, readonly (f a)) -> readonly (bind m f).
Proof.
  intros Hm Hf s. unfold bind. specialize (Hm s).
  destruct (m s) as [[a | e] s']; simpl in *; subst.
  - apply Hf.
  - reflexivity.
Qed.

Lemma readonly_getitem (V : Type) (d : dict V) (k : str) : readonly (getitem d k).
Proof.
  unfold getitem. destruct (dict_get d k);
    [apply readonly_ret | apply readonly_raise].
Qed.

Create HintDb readonly.

#[local] Hint Resolve readonly_ret readonly_raise readonly_pure readonly_read
  readonly_getitem : readonly.

(** A body made of reads, lookups and returns, bound in sequence. *)
Ltac readonly_steps :=
  repeat (apply readonly_bind; [auto with readonly | intro]);
  auto with readonly.

Lemma readonly_mapM (A B : Type) (f : A -> M B) (l : list A) :
  (forall a, readonly (f a)) -> readonly (mapM f l).
Proof.
  intros Hf. induction l as [|a rest IH]; simpl; readonly_steps.
Qed.

Variable np_dot : vector -> vector -> outcome float.
Variable np_linalg_norm : vector -> float.

Lemma readonly_similarity_loop (q : vector) (items : list (str * vector))
    (acc : dict float) :
  readonly (similarity_loop np_dot np_linalg_norm q items acc).
Proof.
  revert acc. induction items as [|[id v] rest IH]; intros acc; simpl;
    readonly_steps.
Qed.

Lemma readonly_search (q : vector) (top_k : Z) :
  readonly (search np_dot np_linalg_norm q top_k).
Proof.
  unfold search. apply readonly_bind; [apply readonly_read|]. intros vs.
  destruct (negb (nonempty vs)); [apply readonly_ret|].
  apply readonly_bind; [apply readonly_similarity_loop|]. intros sims.
  apply readonly_mapM. intros [id sim]. readonly_steps.
Qed.

Lemma readonly_get (id : str) : readonly (get id).
Proof.
  unfold get. apply readonly_bind; [apply readonly_read|]. intros vs.
  destruct (negb (dict_contains vs id)); readonly_steps.
Qed.

(** C10. [search] and [get] leave the two mappings of every store as they
    find them, whether they return or raise. *)
Theorem search_and_get_leave_store (s : t) (query_vector : vector) (top_k : Z)
    (id : str) :
  snd (search np_dot np_linalg_norm query_vector top_k s) = s
  /\ snd (get id s) = s.
Proof. split; [apply readonly_search | apply readonly_get]. Qed.

End ReadOnly.

(* ===================================================================== *)
(** * Properties of the search *)
(* ===================================================================== *)

Lemma slice_to_firstn (A : Type) (k : Z) (l : list A) :
  exists n, VectorStore.slice_to k l = firstn n l.
Proof. unfold VectorStore.slice_to. destruct (k <? 0); eauto. Qed.

Lemma slice_to_all (A : Type) (k : Z) (l : list A) :
  Z.of_nat (length l) < k -> VectorStore.slice_to k l = l.
Proof.
  intros H. unfold VectorStore.slice_to.
  destruct (Z.ltb_spec k 0); [lia|]. apply firstn_all2. lia.
Qed.

Lemma in_firstn (A : Type) (n : nat) (l : list A) (x : A) :
  In x (firstn n l) -> In x l.
Proof.
  intros H. rewrite <- (firstn_skipn n l). apply in_or_app. now left.
Qed.

Lemma descending_firstn (n : nat) (l : list float) :
  VectorStore.descending l -> VectorStore.descending (firstn n l).
Proof.
  unfold VectorStore.descending. revert n.
  induction l as [|x l IH]; intros [|n] H; simpl; try constructor.
  - apply IH. now apply StronglySorted_inv in H.
  - apply StronglySorted_inv in H. destruct H as [_ H].
    apply Forall_forall. intros y Hy. apply in_firstn in Hy.
    revert y Hy. now apply Forall_forall.
Qed.

Section SearchFacts.

Import VectorStore.

Variable np_dot : vector -> vector -> outcome float.
Variable np_linalg_norm : vector -> float.

Lemma comparable_cosine (q : vector) (s : t) (item : str * vector) :
  comparable np_dot np_linalg_norm q s = true ->
  In item (vectors s) ->
  cosine np_dot np_linalg_norm q (snd item) = Return (similarity_of np_dot np_linalg_norm q (snd item))
  /\ is_nan (similarity_of np_dot np_linalg_norm q (snd item)) = false.
Proof.
  unfold VectorStore.comparable. intros H Hin.
  rewrite forallb_forall in H. specialize (H item Hin).
  unfold similarity_of.
  destruct (cosine np_dot np_linalg_norm q (snd item)); [|discriminate].
  split; [reflexivity | now apply negb_true_iff].
Qed.

Lemma similarity_loop_returns (q : vector) (s : t) (items : list (str * vector))
    (acc : dict float) :
  (forall item, In item items ->
                cosine np_dot np_linalg_norm q (snd item) = Return (similarity_of np_dot np_linalg_norm q (snd item))) ->
  NoDup (dict_keys acc ++ dict_keys items) ->
  similarity_loop np_dot np_linalg_norm q items acc s
  = (Return (acc ++ map (scored np_dot np_linalg_norm q) items), s).
Proof.
  revert acc. induction items as [|[id v] rest IH]; intros acc Hcos Hnd; simpl.
  - now rewrite app_nil_r.
  - pose proof (Hcos (id, v) (or_introl eq_refl)) as E. simpl in E.
    unfold bind, pure. rewrite E. fold (scored np_dot np_linalg_norm q (id, v)).
    assert (Hfresh : dict_contains acc id = false).
    { destruct (dict_contains acc id) eqn:Hin; trivial.
      apply dict_contains_in in Hin. simpl in Hnd.
      apply NoDup_remove_2 in Hnd. exfalso. apply Hnd.
      apply in_or_app. now left. }
    rewrite dict_set_fresh by exact Hfresh.
    rewrite IH.
    + now rewrite <- app_assoc.
    + intros item Hin. apply Hcos. now right.
    + unfold dict_keys in *. rewrite map_app, <- app_assoc. exact Hnd.
Qed.

Lemma mapM_returns (A B : Type) (f : A -> M B) (g : A -> B) (l : list A) (s : t) :
  (forall a, In a l -> f a s = (Return (g a), s)) ->
  mapM f l s = (Return (map g l), s).
Proof.
  induction l as [|a rest IH]; intros H; simpl.
  - reflexivity.
  - unfold bind at 1. rewrite (H a) by now left.
    unfold bind at 1. rewrite IH by (intros b Hb; apply H; now right).
    reflexivity.
Qed.

Lemma dict_contains_get (V : Type) (d : dict V) (k : str) :
  dict_contains d k = true -> exists v, dict_get d k = Some v.
Proof. unfold dict_contains. destruct (dict_get d k); [eauto | discriminate]. Qed.

(** What [search] returns in a consistent store whose similarities to the
    query are numbers. *)
Lemma search_returns (s : t) (q : vector) (top_k : Z) :
  consistent s ->
  comparable np_dot np_linalg_norm q s = true ->
  search np_dot np_linalg_norm q top_k s
  = (Return (map (hit_of s)
                 (slice_to top_k (sorted_reverse snd (map (scored np_dot np_linalg_norm q) (vectors s))))),
     s).
Proof.
  intros Hs Hc. pose proof Hs as [Hnd Hkeys].
  unfold VectorStore.search, bind at 1, read.
  destruct (nonempty (vectors s)) eqn:Hne; cbn [negb].
  - unfold bind at 1. rewrite similarity_loop_returns; simpl app.
    + apply mapM_returns. intros [id sim] Hin.
      destruct (slice_to_firstn _ top_k
                  (sorted_reverse snd (map (scored np_dot np_linalg_norm q) (vectors s)))) as [n En].
      rewrite En in Hin. apply in_firstn in Hin.
      apply (Permutation_in _ (sorted_reverse_perm _ snd _)) in Hin.
      assert (Hid : In id (dict_keys (vectors s))).
      { apply in_map_iff in Hin. destruct Hin as (it & E & Hit).
        injection E as <- _. now apply in_map. }
      apply dict_contains_in in Hid.
      pose proof Hid as Hm. rewrite <- (consistent_contains s id Hs) in Hm.
      apply dict_contains_get in Hid. destruct Hid as [v Hv].
      apply dict_contains_get in Hm. destruct Hm as [m Hm].
      unfold bind, read, getitem, hit_of. simpl.
      rewrite Hv. unfold ret at 1. rewrite Hm. reflexivity.
    + intros it Hin. now apply comparable_cosine with (s := s).
    + exact Hnd.
  - destruct (vectors s); [|discriminate]. simpl.
    unfold slice_to. destruct (top_k <? 0); destruct (Z.to_nat _); reflexivity.
Qed.

Lemma scored_numeric (s : t) (q : vector) :
  comparable np_dot np_linalg_norm q s = true ->
  Forall (fun p : str * float => is_nan (snd p) = false)
         (map (scored np_dot np_linalg_norm q) (vectors s)).
Proof.
  intros Hc. apply Forall_forall. intros p Hp.
  apply in_map_iff in Hp. destruct Hp as (item & <- & Hin).
  now apply (comparable_cosine q s item).
Qed.

Lemma hit_similarities (s : t) (l : list (str * float)) :
  map hit_similarity (map (hit_of s) l) = map snd l.
Proof. rewrite map_map. now apply map_ext. Qed.

Lemma hit_ids (s : t) (l : list (str * float)) :
  map hit_id (map (hit_of s) l) = map fst l.
Proof. rewrite map_map. now apply map_ext. Qed.

Lemma hits_descending (s : t) (q : vector) (top_k : Z) :
  comparable np_dot np_linalg_norm q s = true ->
  descending
    (map hit_similarity
       (map (hit_of s)
          (slice_to top_k (sorted_reverse snd (map (scored np_dot np_linalg_norm q) (vectors s)))))).
Proof.
  intros Hc. rewrite hit_similarities.
  destruct (slice_to_firstn _ top_k
              (sorted_reverse snd (map (scored np_dot np_linalg_norm q) (vectors s)))) as [n ->].
  rewrite <- firstn_map. apply descending_firstn.
  apply sorted_reverse_descending. now apply scored_numeric.
Qed.

(** C2, as the code has it. In a consistent store whose similarities to
    the query are all computed and are numbers, [search] returns hits whose
    similarities do not increase, and of two hits of equal similarity the
    one returned first has its id first in [self.vectors], that is, was
    inserted first (an id whose record is replaced keeps its place, a new
    id goes to the end). *)
Theorem search_sorted_and_stable (s : t) (query_vector : vector) (top_k : Z) :
  consistent s ->
  comparable np_dot np_linalg_norm query_vector s = true ->
  exists hits : list hit,
    search np_dot np_linalg_norm query_vector top_k s = (Return hits, s)
    /\ descending (map hit_similarity hits)
    /\ forall h1 h2 : hit,
         before h1 h2 hits ->
         (hit_similarity h1 =? hit_similarity h2)%float = true ->
         exists v1 v2 : vector,
           before (hit_id h1, v1) (hit_id h2, v2) (vectors s).
Proof.
  intros Hs Hc. eexists. split; [now apply search_returns|].
  split; [now apply hits_descending|].
  intros h1 h2 Hb Heq.
  apply before_map in Hb. destruct Hb as (p1 & p2 & <- & <- & Hb).
  destruct (slice_to_firstn _ top_k
              (sorted_reverse snd (map (scored np_dot np_linalg_norm query_vector) (vectors s))))
    as [n En].
  rewrite En in Hb. apply before_firstn in Hb.
  apply before_sorted_reverse in Hb; [|exact Heq].
  apply before_map in Hb. destruct Hb as ([id1 v1] & [id2 v2] & <- & <- & Hb).
  now exists v1, v2.
Qed.

(** C3, as the code has it. In a consistent store of [n] records whose
    similarities to the query are all computed and are numbers, [search]
    with [top_k > n] returns [n] hits, one for each stored id with its
    vector, its metadata and its cosine similarity, and their similarities
    do not increase. *)
Theorem search_returns_every_record (s : t) (query_vector : vector) (top_k : Z) :
  consistent s ->
  comparable np_dot np_linalg_norm query_vector s = true ->
  Z.of_nat (length (vectors s)) < top_k ->
  exists hits : list hit,
    search np_dot np_linalg_norm query_vector top_k s = (Return hits, s)
    /\ length hits = length (vectors s)
    /\ Permutation (map hit_id hits) (dict_keys (vectors s))
    /\ Forall (fun h =>
                 dict_get (vectors s) (hit_id h) = Some (hit_vector h)
                 /\ dict_get (metadata s) (hit_id h) = Some (hit_metadata h)
                 /\ cosine np_dot np_linalg_norm query_vector (hit_vector h)
                    = Return (hit_similarity h))
              hits
    /\ descending (map hit_similarity hits).
Proof.
  intros Hs Hc Hk. pose proof Hs as [Hnd Hkeys].
  pose proof (sorted_reverse_perm _ snd (map (scored np_dot np_linalg_norm query_vector) (vectors s)))
    as Hperm.
  eexists. split; [now apply search_returns|].
  split; [|split; [|split]].
  - rewrite slice_to_all.
    + now rewrite length_map, (Permutation_length Hperm), length_map.
    + now rewrite (Permutation_length Hperm), length_map.
  - rewrite slice_to_all
      by now rewrite (Permutation_length Hperm), length_map.
    rewrite hit_ids, (Permutation_map fst Hperm), map_map. reflexivity.
  - apply Forall_forall. intros h Hh.
    apply in_map_iff in Hh. destruct Hh as (p & <- & Hp).
    destruct (slice_to_firstn _ top_k
                (sorted_reverse snd (map (scored np_dot np_linalg_norm query_vector) (vectors s))))
      as [n En].
    rewrite En in Hp. apply in_firstn in Hp.
    apply (Permutation_in _ Hperm) in Hp.
    apply in_map_iff in Hp. destruct Hp as ([id v] & <- & Hin).
    pose proof (dict_get_nodup _ (vectors s) id v Hnd Hin) as Hv.
    assert (Hm : dict_contains (metadata s) id = true).
    { rewrite (consistent_contains s id Hs). apply dict_contains_in.
      change id with (fst (id, v)). now apply in_map. }
    apply dict_contains_get in Hm. destruct Hm as [m Hm].
    unfold hit_of, scored. simpl. rewrite Hv, Hm.
    repeat split. now apply (comparable_cosine query_vector s (id, v)).
  - now apply hits_descending.
Qed.

End SearchFacts.

(* ===================================================================== *)
(** * The code on concrete inputs *)
(* ===================================================================== *)

Import TextProcessor.
Import VectorStore.

(** The two examples of the specification. *)
Example split_text_one_chunk :
  split_text ascii_isspace ascii_isalnum (TextProcessor.mk 10 10000)
    (py "Hello world. This is a test sentence that is reasonably long enough to matter. Short.")
    1000 0
  = [py "Hello world. This is a test sentence that is reasonably long enough to matter. Short."].
Proof. reflexivity. Qed.

Example search_two_nearest :
  exists h1 h2 : hit,
    fst (search dot_exact norm_exact [1; 0]%float 2
           (after_all [Add (py "a") [1; 0]%float None;
                       Add (py "b") [0; 1]%float None;
                       Add (py "c") [1; 1]%float None]
                      empty))
    = Return [h1; h2]
    /\ (hit_id h1, hit_similarity h1) = (py "a", 1%float)
    /\ hit_id h2 = py "c"
    /\ (0.5 <? hit_similarity h2)%float = true
    /\ (hit_similarity h2 <? 0.75)%float = true.
Proof. do 2 eexists. split; [vm_compute; reflexivity|]. repeat split. Qed.

(** The ties of [four_records] come back in the order of insertion. *)
Example search_four_records :
  exists hits : list hit,
    fst (search dot_exact norm_exact [1; 0]%float 3 four_records) = Return hits
    /\ map hit_id hits = [py "a"; py "d"; py "c"].
Proof. eexists. split; [vm_compute; reflexivity | reflexivity]. Qed.

Lemma split_text_min_length_witness :
  0 < 20
  /\ Forall (fun chunk => 10 <= len chunk)
            (split_text ascii_isspace ascii_isalnum (TextProcessor.mk 10 10000)
               (py "Hello world.  This is a test! Ok.") 20 200).
Proof.
  split; [reflexivity|].
  apply (split_text_min_length ascii_isspace ascii_isalnum
           (TextProcessor.mk 10 10000) 20).
  reflexivity.
Defined.

Lemma long_sentence_own_chunk_witness :
  exists groups : list (list str),
    concat groups
    = re_split ascii_isspace
        (clean_text ascii_isspace ascii_isalnum
           (py "Short one. This sentence is longer than the chunk size. End."))
    /\ split_text ascii_isspace ascii_isalnum (TextProcessor.mk 10 10000)
         (py "Short one. This sentence is longer than the chunk size. End.")
         20 200
       = filter (fun chunk => len chunk >=? 10) (map (join [SPACE]) groups)
    /\ In [py "This sentence is longer than the chunk size."] groups
    /\ (10 <= len (py "This sentence is longer than the chunk size.") ->
        In (py "This sentence is longer than the chunk size.")
           (split_text ascii_isspace ascii_isalnum (TextProcessor.mk 10 10000)
              (py "Short one. This sentence is longer than the chunk size. End.")
              20 200)).
Proof.
  apply (long_sentence_own_chunk ascii_isspace ascii_isalnum
           (TextProcessor.mk 10 10000) 20
           (py "Short one. This sentence is longer than the chunk size. End.")
           200 (py "This sentence is longer than the chunk size.")).
  - reflexivity.
  - vm_compute. right. left. reflexivity.
  - reflexivity.
Defined.

(** C5. On the text [a # b] the second application of [clean_text] changes
    the result of the first: removing [#] leaves two spaces side by side,
    which only the next application collapses. *)
Theorem clean_text_twice_differs :
  clean_text ascii_isspace ascii_isalnum (py "a # b") = py "a  b"
  /\ clean_text ascii_isspace ascii_isalnum
       (clean_text ascii_isspace ascii_isalnum (py "a # b"))
     = py "a b".
Proof. split; reflexivity. Qed.

Lemma config_get_absent (self : Config.t) (key : str) (default : pyval) :
  Config.contains self key = false -> Config.get self key default = default.
Proof.
  unfold Config.contains, Config.get, dict_contains.
  destruct (dict_get (Config.config self) key); [discriminate | reflexivity].
Qed.

Lemma split_dots_plain (key : str) :
  existsb (fun c => char_eqb c 46%N) key = false ->
  Config.split_dots key = [key].
Proof.
  induction key as [|c key IH]; cbn [existsb Config.split_dots]; trivial.
  destruct (char_eqb c 46%N); cbn [orb]; [discriminate|].
  intros H. now rewrite IH.
Qed.

(** On a key without a dot the flat lookup is the one of the
    specification. *)
Lemma config_get_plain (self : Config.t) (key : str) (default : pyval) :
  existsb (fun c => char_eqb c 46%N) key = false ->
  Config.get self key default = Config.spec_get self key default.
Proof.
  intros H. unfold Config.get, Config.spec_get.
  rewrite split_dots_plain by exact H. simpl.
  now destruct (dict_get (Config.config self) key).
Qed.

(** C9. [Config.get] looks the whole key up in the top-level mapping: on a
    configuration whose section [vector_db] holds [collection_name], the
    dotted key [vector_db.collection_name] yields the default, where the
    lookup of the specification yields the stored value. *)
Theorem config_get_flat_lookup :
  Config.get nested_config (py "vector_db.collection_name") PNone = PNone
  /\ Config.spec_get nested_config (py "vector_db.collection_name") PNone
     = PStr (py "drugs").
Proof. split; reflexivity. Qed.

Lemma four_records_consistent : consistent four_records.
Proof. apply after_all_consistent, empty_consistent. Qed.

Lemma search_sorted_and_stable_witness :
  exists hits : list hit,
    search dot_exact norm_exact [1; 0]%float 3 four_records
    = (Return hits, four_records)
    /\ descending (map hit_similarity hits)
    /\ forall h1 h2 : hit,
         before h1 h2 hits ->
         (hit_similarity h1 =? hit_similarity h2)%float = true ->
         exists v1 v2 : vector,
           before (hit_id h1, v1) (hit_id h2, v2) (vectors four_records).
Proof.
  apply (search_sorted_and_stable dot_exact norm_exact four_records
           [1; 0]%float 3).
  - exact four_records_consistent.
  - reflexivity.
Defined.

(** C2 fails on a store with a zero vector.  The division of 0 by 0 gives
    NaN, and no comparison with NaN is true: in the list of similarities
    taken backwards, as the sort with [reverse=True] reads it, no element is
    less than the one before it, so the list is returned as it is, the hit
    for [a], of similarity 0.707, before the hit for [b], of similarity 1. *)
Lemma search_unsorted_with_zero_vector :
  exists h1 h2 h3 : hit,
    search dot_exact norm_exact [1; 0]%float 3 with_zero_vector
    = (Return [h1; h2; h3], with_zero_vector)
    /\ (hit_id h1, hit_id h2, hit_id h3) = (py "a", py "z", py "b")
    /\ is_nan (hit_similarity h2) = true
    /\ (hit_similarity h2 <? hit_similarity h3)%float = false
    /\ (hit_similarity h1 <? hit_similarity h2)%float = false
    /\ (hit_similarity h1 <? hit_similarity h3)%float = true
    /\ ~ descending (map hit_similarity [h1; h2; h3]).
Proof.
  do 3 eexists. split; [vm_compute; reflexivity|].
  repeat (split; [reflexivity|]).
  intros H. apply StronglySorted_inv in H. destruct H as [_ H].
  apply Forall_inv in H. vm_compute in H. discriminate H.
Qed.

Lemma search_returns_every_record_witness :
  exists hits : list hit,
    search dot_exact norm_exact [1; 0]%float 10 four_records
    = (Return hits, four_records)
    /\ length hits = length (vectors four_records)
    /\ Permutation (map hit_id hits) (dict_keys (vectors four_records))
    /\ Forall (fun h =>
                 dict_get (vectors four_records) (hit_id h) = Some (hit_vector h)
                 /\ dict_get (metadata four_records) (hit_id h)
                    = Some (hit_metadata h)
                 /\ cosine dot_exact norm_exact [1; 0]%float (hit_vector h)
                    = Return (hit_similarity h))
              hits
    /\ descending (map hit_similarity hits).
Proof.
  apply (search_returns_every_record dot_exact norm_exact four_records
           [1; 0]%float 10).
  - exact four_records_consistent.
  - reflexivity.
  - reflexivity.
Defined.

(** C3 fails on a store with a zero vector.  With [top_k] above the number
    of records all three are returned, but as the store lists them: the hit
    of similarity 0 first, the hit of similarity NaN next and the hit of
    similarity 1 last. *)
Lemma search_all_unsorted_with_zero_vector :
  Z.of_nat (length (vectors with_zero_norm)) < 5
  /\ exists h1 h2 h3 : hit,
       search dot_exact norm_exact [5; 0]%float 5 with_zero_norm
       = (Return [h1; h2; h3], with_zero_norm)
       /\ (hit_id h1, hit_id h2, hit_id h3) = (py "u", py "o", py "w")
       /\ is_nan (hit_similarity h2) = true
       /\ (hit_similarity h2 <? hit_similarity h3)%float = false
       /\ (hit_similarity h1 <? hit_similarity h2)%float = false
       /\ (hit_similarity h1 <? hit_similarity h3)%float = true
       /\ ~ descending (map hit_similarity [h1; h2; h3]).
Proof.
  split; [reflexivity|].
  do 3 eexists. split; [vm_compute; reflexivity|].
  repeat (split; [reflexivity|]).
  intros H. apply StronglySorted_inv in H. destruct H as [_ H].
  apply Forall_inv in H. vm_compute in H. discriminate H.
Qed.

Lemma add_then_delete_restores_witness :
  (add (py "e") [3; 4]%float None ;; delete (py "e")) four_records
  = (Return true, four_records).
Proof.
  apply (add_then_delete_restores four_records (py "e") [3; 4]%float None).
  - exact four_records_consistent.
  - reflexivity.
Defined.

(** C7 fails for an id the store already holds: [add] replaces its record
    and [delete] removes it, so the record held before is lost. *)
Lemma add_then_delete_drops_held_id :
  dict_contains (vectors four_records) (py "a") = true
  /\ snd ((add (py "a") [3; 4]%float None ;; delete (py "a")) four_records)
     <> four_records.
Proof.
  split; [reflexivity|].
  intros H. vm_compute in H. discriminate H.
Qed.

(* ===================================================================== *)
(** * Further properties of the index *)
(* ===================================================================== *)

Section DictUpdates.

Variable V : Type.

Lemma dict_get_set_same (d : dict V) (k : str) (v : V) :
  dict_get (dict_set d k v) k = Some v.
Proof.
  induction d as [|[k' v'] rest IH]; simpl.
  - now rewrite str_eqb_refl.
  - destruct (str_eqb k' k) eqn:E; simpl; now rewrite E.
Qed.

Lemma str_eqb_neq (a b : str) : a <> b -> str_eqb a b = false.
Proof.
  intros H. destruct (str_eqb a b) eqn:E; trivial.
  apply str_eqb_eq in E. contradiction.
Qed.

Lemma dict_get_set_other (d : dict V) (k k' : str) (v : V) :
  k' <> k -> dict_get (dict_set d k v) k' = dict_get d k'.
Proof.
  intros H. induction d as [|[k0 v0] rest IH]; simpl.
  - now rewrite str_eqb_neq by congruence.
  - destruct (str_eqb k0 k) eqn:E; simpl.
    + apply str_eqb_eq in E. subst k0. now rewrite str_eqb_neq by congruence.
    + now rewrite IH.
Qed.

Lemma dict_set_set (d : dict V) (k : str) (v1 v2 : V) :
  dict_set (dict_set d k v1) k v2 = dict_set d k v2.
Proof.
  induction d as [|[k0 v0] rest IH]; simpl.
  - now rewrite str_eqb_refl.
  - destruct (str_eqb k0 k) eqn:E; simpl; rewrite E; [reflexivity|].
    now rewrite IH.
Qed.

Lemma dict_set_same (d : dict V) (k : str) (v : V) :
  dict_get d k = Some v -> dict_set d k v = d.
Proof.
  induction d as [|[k0 v0] rest IH]; simpl; [discriminate|].
  destruct (str_eqb k0 k).
  - intros H. now injection H as ->.
  - intros H. now rewrite IH.
Qed.

Lemma dict_get_remove_other (d : dict V) (k k' : str) :
  k' <> k -> dict_get (dict_remove d k) k' = dict_get d k'.
Proof.
  intros H. induction d as [|[k0 v0] rest IH]; simpl; trivial.
  destruct (str_eqb k0 k) eqn:E; simpl.
  - apply str_eqb_eq in E. subst k0. now rewrite str_eqb_neq by congruence.
  - now rewrite IH.
Qed.

Lemma dict_contains_remove (d : dict V) (k : str) :
  NoDup (dict_keys d) -> dict_contains (dict_remove d k) k = false.
Proof.
  intros Hnd. destruct (dict_contains (dict_remove d k) k) eqn:E; trivial.
  apply dict_contains_in in E. exfalso.
  induction d as [|[k0 v0] rest IH]; simpl in *; trivial.
  apply NoDup_cons_iff in Hnd. destruct Hnd as [Hnot Hnd].
  destruct (str_eqb k0 k) eqn:E0.
  - apply str_eqb_eq in E0. subst k0. contradiction.
  - simpl in E. destruct E as [-> | E].
    + now rewrite str_eqb_refl in E0.
    + now apply IH.
Qed.

End DictUpdates.

Section IndexWrites.

Import VectorStore.

(** What [get] returns, read off the two mappings. *)
Lemma get_result (id : str) (s : t) :
  fst (get id s)
  = match dict_get (vectors s) id with
    | None => Return None
    | Some v =>
        match dict_get (metadata s) id with
        | Some m => Return (Some (mkEntry v m))
        | None => Raise (KeyError id)
        end
    end.
Proof.
  unfold get, bind, read, getitem, dict_contains.
  destruct (dict_get (vectors s) id) as [v|]; simpl; trivial.
  destruct (dict_get (metadata s) id); reflexivity.
Qed.

(** X1. After [add] of an id, [get] of that id returns the vector just given
    and the metadata just given, the empty mapping when none or an empty one
    was given, whatever the store held before. *)
Theorem get_after_add (s : t) (id : str) (v : vector) (md : option (dict pyval)) :
  (add id v md ;; get id) s
  = (Return (Some (mkEntry v (or_empty md))), snd (add id v md s)).
Proof.
  unfold bind at 1. rewrite add_store.
  rewrite (surjective_pairing (get id _)), get_result, readonly_get.
  simpl. now rewrite !dict_get_set_same.
Qed.

(** X2. [add] of an id changes what [get] returns for no other id. *)
Theorem add_keeps_other_entries (s : t) (id id' : str) (v : vector)
    (md : option (dict pyval)) :
  id' <> id ->
  fst (get id' (snd (add id v md s))) = fst (get id' s).
Proof.
  intros H. rewrite add_store, !get_result. simpl.
  now rewrite !dict_get_set_other.
Qed.

(** X3. [add] overwrites: two calls for one id leave the store that the
    second call alone leaves, the id keeping its place in the mappings. *)
Theorem add_overwrites (s : t) (id : str) (v1 v2 : vector)
    (m1 m2 : option (dict pyval)) :
  (add id v1 m1 ;; add id v2 m2) s = add id v2 m2 s.
Proof.
  unfold bind. rewrite !add_store. simpl. now rewrite !dict_set_set.
Qed.

Lemma delete_store (id : str) (s : t) :
  consistent s ->
  delete id s
  = (Return (dict_contains (vectors s) id),
     if dict_contains (vectors s) id
     then mk (dict_remove (vectors s) id) (dict_remove (metadata s) id)
     else s).
Proof.
  intros Hs. destruct (dict_contains (vectors s) id) eqn:E.
  - apply delete_present; trivial. now rewrite consistent_contains.
  - now apply delete_absent.
Qed.

Lemma delete_consistent (id : str) (s : t) :
  consistent s -> consistent (snd (delete id s)).
Proof. intros Hs. exact (after_consistent (Delete id) s Hs). Qed.

Lemma deleted_absent (id : str) (s : t) :
  consistent s -> dict_contains (vectors (snd (delete id s))) id = false.
Proof.
  intros Hs. rewrite delete_store by exact Hs. simpl.
  destruct (dict_contains (vectors s) id) eqn:E; simpl; trivial.
  apply dict_contains_remove. apply Hs.
Qed.

(** X4. In a consistent store [delete] returns whether the id held a
    record; afterwards the store is consistent, [get] of the id returns
    [None] and a second [delete] returns [False]. *)
Theorem delete_reports_and_removes (s : t) (id : str) :
  consistent s ->
  fst (delete id s) = Return (dict_contains (vectors s) id)
  /\ consistent (snd (delete id s))
  /\ fst (get id (snd (delete id s))) = Return None
  /\ fst (delete id (snd (delete id s))) = Return false.
Proof.
  intros Hs. pose proof (deleted_absent id s Hs) as Hgone.
  split; [now rewrite delete_store|].
  split; [now apply delete_consistent|].
  split.
  - rewrite get_result. unfold dict_contains in Hgone.
    now destruct (dict_get (vectors (snd (delete id s))) id).
  - now rewrite delete_absent.
Qed.

(** X5. In a consistent store [delete] of an id changes what [get] returns
    for no other id. *)
Theorem delete_keeps_other_entries (s : t) (id id' : str) :
  consistent s ->
  id' <> id ->
  fst (get id' (snd (delete id s))) = fst (get id' s).
Proof.
  intros Hs H. rewrite delete_store by exact Hs. simpl.
  destruct (dict_contains (vectors s) id); trivial.
  rewrite !get_result. simpl. now rewrite !dict_get_remove_other.
Qed.

End IndexWrites.

Lemma slice_to_length (A : Type) (k : Z) (l : list A) :
  Z.of_nat (length (VectorStore.slice_to k l))
  = if k <? 0 then Z.max 0 (Z.of_nat (length l) + k)
    else Z.min k (Z.of_nat (length l)).
Proof.
  unfold VectorStore.slice_to.
  destruct (Z.ltb_spec k 0); rewrite length_firstn; lia.
Qed.

Lemma NoDup_firstn (A : Type) (n : nat) (l : list A) :
  NoDup l -> NoDup (firstn n l).
Proof.
  intros H. rewrite <- (firstn_skipn n l) in H.
  now apply NoDup_app_remove_r in H.
Qed.

Lemma descending_app (l1 l2 : list float) (x y : float) :
  VectorStore.descending (l1 ++ l2) -> In x l1 -> In y l2 ->
  (y <=? x)%float = true.
Proof.
  unfold VectorStore.descending.
  induction l1 as [|a l1 IH]; simpl; intros H Hx Hy; [contradiction|].
  apply StronglySorted_inv in H. destruct H as [H Ha].
  destruct Hx as [-> | Hx].
  - rewrite Forall_forall in Ha. apply Ha. apply in_or_app. now right.
  - now apply IH.
Qed.

Section IndexSearches.

Import VectorStore.

Variable np_dot : vector -> vector -> outcome float.
Variable np_linalg_norm : vector -> float.

(** On a store without vectors [search] returns the empty list for
    every query and every [top_k], without a call of [np.dot]; so it does
    after [clear], and [get] then returns [None]. *)
Theorem search_of_empty_store (s : t) (query_vector : vector) (top_k : Z)
    (id : str) :
  (vectors s = [] ->
   search np_dot np_linalg_norm query_vector top_k s = (Return [], s))
  /\ (clear ;; search np_dot np_linalg_norm query_vector top_k) s
     = (Return [], empty)
  /\ (clear ;; get id) s = (Return None, empty).
Proof.
  split; [|split; reflexivity].
  intros H. unfold search, bind, read. now rewrite H.
Qed.

(** X6. The number of hits: [top_k] of them when the store holds as many,
    all of them otherwise, and for a negative [top_k] all but the last
    [-top_k] of them, which is what the slice [[:top_k]] means. *)
Theorem search_length (s : t) (query_vector : vector) (top_k : Z) :
  consistent s ->
  comparable np_dot np_linalg_norm query_vector s = true ->
  exists hits : list hit,
    search np_dot np_linalg_norm query_vector top_k s = (Return hits, s)
    /\ Z.of_nat (length hits)
       = if top_k <? 0
         then Z.max 0 (Z.of_nat (length (vectors s)) + top_k)
         else Z.min top_k (Z.of_nat (length (vectors s))).
Proof.
  intros Hs Hc. eexists. split; [now apply search_returns|].
  rewrite length_map, slice_to_length.
  now rewrite (Permutation_length (sorted_reverse_perm _ snd _)), length_map.
Qed.

(** The ids and the similarities of the hits, before the slice. *)
Lemma ranked_ids (s : t) (q : vector) :
  map fst (map (scored np_dot np_linalg_norm q) (vectors s))
  = dict_keys (vectors s).
Proof. rewrite map_map. reflexivity. Qed.

(** X7. The hits are the most similar records: a stored record that is
    not among the hits is at most as similar to the query as every hit. *)
Theorem search_returns_most_similar (s : t) (query_vector : vector) (top_k : Z) :
  consistent s ->
  comparable np_dot np_linalg_norm query_vector s = true ->
  exists hits : list hit,
    search np_dot np_linalg_norm query_vector top_k s = (Return hits, s)
    /\ forall (h : hit) (id : str) (v : vector) (x : float),
         In h hits ->
         In (id, v) (vectors s) ->
         ~ In id (map hit_id hits) ->
         cosine np_dot np_linalg_norm query_vector v = Return x ->
         (x <=? hit_similarity h)%float = true.
Proof.
  intros Hs Hc. eexists. split; [now apply search_returns|].
  intros h id v x Hh Hin Hout Hx.
  set (ranked := sorted_reverse snd
                   (map (scored np_dot np_linalg_norm query_vector) (vectors s))) in *.
  destruct (slice_to_firstn _ top_k ranked) as [n En]. rewrite En in *.
  assert (Hdesc : descending (map snd (firstn n ranked) ++ map snd (skipn n ranked))).
  { rewrite <- map_app, firstn_skipn.
    apply sorted_reverse_descending. now apply scored_numeric. }
  assert (Hp : In (id, x) ranked).
  { apply (Permutation_in _ (Permutation_sym (sorted_reverse_perm _ snd _))).
    apply in_map_iff. exists (id, v). split; trivial.
    unfold scored, similarity_of. simpl. now rewrite Hx. }
  rewrite <- (firstn_skipn n ranked) in Hp. apply in_app_or in Hp.
  destruct Hp as [Hp | Hp].
  - exfalso. apply Hout. rewrite hit_ids.
    change id with (fst (id, x)). now apply in_map.
  - apply (descending_app _ _ _ _ Hdesc).
    + rewrite <- hit_similarities with (s := s). now apply in_map.
    + change x with (snd (id, x)). now apply in_map.
Qed.

(** X8. Every hit is a record of the store: the ids of the hits are
    distinct, [get] of a hit's id returns the vector and the metadata the
    hit carries, and the similarity of the hit is the cosine of that
    vector to the query. *)
Theorem search_hits_are_entries (s : t) (query_vector : vector) (top_k : Z) :
  consistent s ->
  comparable np_dot np_linalg_norm query_vector s = true ->
  exists hits : list hit,
    search np_dot np_linalg_norm query_vector top_k s = (Return hits, s)
    /\ NoDup (map hit_id hits)
    /\ Forall (fun h =>
                 fst (get (hit_id h) s)
                 = Return (Some (mkEntry (hit_vector h) (hit_metadata h)))
                 /\ cosine np_dot np_linalg_norm query_vector (hit_vector h)
                    = Return (hit_similarity h))
              hits.
Proof.
  intros Hs Hc. pose proof Hs as [Hnd Hkeys].
  pose proof (sorted_reverse_perm _ snd
                (map (scored np_dot np_linalg_norm query_vector) (vectors s)))
    as Hperm.
  eexists. split; [now apply search_returns|].
  destruct (slice_to_firstn _ top_k
              (sorted_reverse snd
                 (map (scored np_dot np_linalg_norm query_vector) (vectors s))))
    as [n ->].
  split.
  - rewrite hit_ids, <- firstn_map. apply NoDup_firstn.
    apply (Permutation_NoDup (Permutation_sym (Permutation_map fst Hperm))).
    now rewrite ranked_ids.
  - apply Forall_forall. intros h Hh.
    apply in_map_iff in Hh. destruct Hh as (p & <- & Hp).
    apply in_firstn in Hp. apply (Permutation_in _ Hperm) in Hp.
    apply in_map_iff in Hp. destruct Hp as ([id v] & <- & Hin).
    pose proof (dict_get_nodup _ (vectors s) id v Hnd Hin) as Hv.
    assert (Hm : dict_contains (metadata s) id = true).
    { rewrite (consistent_contains s id Hs). apply dict_contains_in.
      change id with (fst (id, v)). now apply in_map. }
    apply dict_contains_get in Hm. destruct Hm as [m Hm].
    rewrite get_result. unfold hit_of, scored. simpl. rewrite Hv, Hm.
    split; trivial.
    now apply (comparable_cosine np_dot np_linalg_norm query_vector s (id, v)).
Qed.

Lemma similarity_loop_raises (q : vector) (s : t) (items : list (str * vector))
    (acc : dict float) :
  (exists item e, In item items /\ np_dot q (snd item) = Raise e) ->
  exists e', similarity_loop np_dot np_linalg_norm q items acc s = (Raise e', s).
Proof.
  revert acc. induction items as [|[id v] rest IH]; intros acc (item & e & Hin & He).
  - contradiction.
  - simpl. unfold bind, pure, cosine.
    destruct (np_dot q v) as [d | e0] eqn:Ed.
    + apply IH. destruct Hin as [<- | Hin].
      * simpl in He. congruence.
      * now exists item, e.
    + now exists e0.
Qed.

(** X9. A stored vector on which [np.dot] raises, as one of another shape
    than the query does, makes [search] raise: no list of hits is returned
    for the other records, and the store is left as it was. *)
Theorem search_raises_on_mismatch (s : t) (query_vector : vector) (top_k : Z)
    (id : str) (v : vector) (e : exn) :
  In (id, v) (vectors s) ->
  np_dot query_vector v = Raise e ->
  exists e' : exn,
    search np_dot np_linalg_norm query_vector top_k s = (Raise e', s).
Proof.
  intros Hin He. unfold search, bind at 1, read.
  destruct (vectors s) as [|item items] eqn:Ev; [contradiction|].
  cbn [nonempty negb]. unfold bind.
  destruct (similarity_loop_raises query_vector s (item :: items) [])
    as [e' ->]; [|now exists e'].
  now exists (id, v), e.
Qed.

(** X10. After [delete] of an id no [search] returns a hit for it. *)
Theorem search_after_delete (s : t) (query_vector : vector) (top_k : Z) (id : str) :
  consistent s ->
  comparable np_dot np_linalg_norm query_vector (snd (delete id s)) = true ->
  exists hits : list hit,
    (delete id ;; search np_dot np_linalg_norm query_vector top_k) s
    = (Return hits, snd (delete id s))
    /\ ~ In id (map hit_id hits).
Proof.
  intros Hs Hc.
  pose proof (delete_consistent id s Hs) as Hs'.
  pose proof (deleted_absent id s Hs) as Hgone.
  eexists. split.
  - unfold bind. rewrite (delete_store id s Hs).
    rewrite (delete_store id s Hs) in Hs', Hc. simpl in Hs', Hc.
    simpl snd. now apply search_returns.
  - rewrite (delete_store id s Hs) in *. simpl in *.
    rewrite hit_ids. intros Hin.
    destruct (slice_to_firstn _ top_k
                (sorted_reverse snd
                   (map (scored np_dot np_linalg_norm query_vector)
                        (vectors (if dict_contains (vectors s) id
                                  then mk (dict_remove (vectors s) id)
                                          (dict_remove (metadata s) id)
                                  else s)))))
      as [n En].
    rewrite En in Hin. rewrite <- firstn_map in Hin. apply in_firstn in Hin.
    apply (Permutation_in _ (Permutation_map fst (sorted_reverse_perm _ snd _))) in Hin.
    rewrite ranked_ids in Hin. apply dict_contains_in in Hin. congruence.
Qed.

End IndexSearches.

(* ===================================================================== *)
(** * Further properties of the text segmentation *)
(* ===================================================================== *)

Section CleanText.

Import TextProcessor.

Variable isspace : char -> bool.
Variable isalnum : char -> bool.

Lemma lstrip_split (s : str) :
  exists ws, s = ws ++ lstrip isspace s /\ forallb isspace ws = true.
Proof.
  induction s as [|c rest IH]; simpl.
  - now exists [].
  - destruct (isspace c) eqn:E.
    + destruct IH as (ws & Hs & Hws). exists (c :: ws). simpl.
      rewrite E, Hws. split; [now rewrite <- Hs | reflexivity].
    + now exists [].
Qed.

Lemma lstrip_head (s : str) :
  match lstrip isspace s with
  | c :: _ => isspace c = false
  | [] => True
  end.
Proof.
  induction s as [|c rest IH]; simpl; trivial.
  destruct (isspace c) eqn:E; trivial.
Qed.

Lemma rstrip_split (s : str) : exists ws, s = rstrip isspace s ++ ws.
Proof.
  unfold rstrip. destruct (lstrip_split (rev s)) as (ws & Hs & _).
  exists (rev ws). rewrite <- rev_app_distr, <- Hs. now rewrite rev_involutive.
Qed.

Lemma lstrip_fixed (s : str) :
  match s with c :: _ => isspace c = false | [] => True end ->
  lstrip isspace s = s.
Proof. destruct s as [|c rest]; simpl; trivial. now intros ->. Qed.

Lemma strip_stripped (s : str) : stripped isspace (strip isspace s) = true.
Proof.
  unfold stripped, strip. apply andb_true_iff. split.
  - destruct (rstrip_split (lstrip isspace s)) as (ws & Hs).
    pose proof (lstrip_head s) as Hh. rewrite Hs in Hh.
    destruct (rstrip isspace (lstrip isspace s)); simpl in *; trivial.
    now rewrite Hh.
  - unfold rstrip. rewrite rev_involutive.
    pose proof (lstrip_head (rev (lstrip isspace s))) as Hh.
    destruct (lstrip isspace (rev (lstrip isspace s))); trivial.
    now rewrite Hh.
Qed.

Lemma strip_fixed (s : str) : stripped isspace s = true -> strip isspace s = s.
Proof.
  unfold stripped, strip, rstrip. intros H. apply andb_true_iff in H.
  destruct H as [Hh Hl].
  rewrite (lstrip_fixed s).
  - rewrite lstrip_fixed; [apply rev_involutive|].
    destruct (rev s); trivial. now apply negb_true_iff.
  - destruct s; trivial. now apply negb_true_iff.
Qed.

Lemma strip_in (s : str) (c : char) : In c (strip isspace s) -> In c s.
Proof.
  unfold strip. intros H.
  destruct (rstrip_split (lstrip isspace s)) as (ws & Hs).
  destruct (lstrip_split s) as (ws' & Hs' & _).
  rewrite Hs'. apply in_or_app. right. rewrite Hs. apply in_or_app. now left.
Qed.

Lemma strip_length (s : str) : (length (strip isspace s) <= length s)%nat.
Proof.
  unfold strip.
  destruct (rstrip_split (lstrip isspace s)) as (ws & Hs).
  destruct (lstrip_split s) as (ws' & Hs' & _).
  rewrite Hs' at 2. rewrite Hs at 2. rewrite !length_app. lia.
Qed.

Lemma sub_whitespace_in (b : bool) (t : str) (c : char) :
  In c (sub_whitespace_from isspace b t) -> c = SPACE \/ In c t.
Proof.
  revert b. induction t as [|x rest IH]; intros b; simpl; [tauto|].
  destruct (isspace x).
  - destruct b; simpl; intros H.
    + destruct (IH _ H); tauto.
    + destruct H as [<- | H]; [tauto|]. destruct (IH _ H); tauto.
  - simpl. intros [<- | H]; [tauto|]. destruct (IH _ H); tauto.
Qed.

Lemma sub_whitespace_spaces (b : bool) (t : str) :
  Forall (fun c => isspace c = true -> c = SPACE)
         (sub_whitespace_from isspace b t).
Proof.
  revert b. induction t as [|x rest IH]; intros b; simpl; [constructor|].
  destruct (isspace x) eqn:E.
  - destruct b; [apply IH|]. constructor; [reflexivity | apply IH].
  - constructor; [congruence | apply IH].
Qed.

Lemma sub_whitespace_length (b : bool) (t : str) :
  (length (sub_whitespace_from isspace b t) <= length t)%nat.
Proof.
  revert b. induction t as [|x rest IH]; intros b; simpl; [lia|].
  pose proof (IH true). pose proof (IH false).
  destruct (isspace x); [destruct b|]; simpl; lia.
Qed.

Lemma clean_text_shape (text : str) :
  stripped isspace (clean_text isspace isalnum text) = true
  /\ Forall (fun c => keeps isspace isalnum c = true
                      /\ (isspace c = true -> c = SPACE))
            (clean_text isspace isalnum text).
Proof.
  destruct text as [|x rest]; [split; [reflexivity | constructor]|].
  unfold clean_text. split; [apply strip_stripped|].
  apply Forall_forall. intros c Hc. apply strip_in in Hc.
  unfold sub_special in Hc. apply filter_In in Hc. destruct Hc as [Hc Hk].
  split; trivial.
  pose proof (sub_whitespace_spaces false (x :: rest)) as H.
  rewrite Forall_forall in H. now apply H.
Qed.

(** X11. The text [clean_text] returns neither starts nor ends with
    whitespace, holds only characters of the allowed class, and holds no
    other whitespace than the plain space. *)
Theorem clean_text_alphabet (text : str) :
  stripped isspace (clean_text isspace isalnum text) = true
  /\ Forall (fun c => keeps isspace isalnum c = true
                      /\ (isspace c = true -> c = SPACE))
            (clean_text isspace isalnum text).
Proof. exact (clean_text_shape text). Qed.

(** X12. [clean_text] never lengthens a text. *)
Theorem clean_text_shorter (text : str) :
  len (clean_text isspace isalnum text) <= len text.
Proof.
  destruct text as [|x rest]; [reflexivity|].
  unfold clean_text, len, sub_special, sub_whitespace.
  pose proof (strip_length
                (filter (keeps isspace isalnum)
                   (sub_whitespace_from isspace false (x :: rest)))).
  pose proof (filter_length_le (keeps isspace isalnum)
                (sub_whitespace_from isspace false (x :: rest))).
  pose proof (sub_whitespace_length false (x :: rest)).
  lia.
Qed.

Hypothesis space_is_space : isspace SPACE = true.

Lemma sub_whitespace_single_spaced (b : bool) (t : str) :
  single_spaced isspace b (sub_whitespace_from isspace b t) = true.
Proof.
  revert b. induction t as [|x rest IH]; intros b; simpl; trivial.
  destruct (isspace x) eqn:E.
  - destruct b; [apply IH|]. simpl. rewrite space_is_space. apply IH.
  - simpl. rewrite E. apply IH.
Qed.

Lemma single_spaced_weaken (b : bool) (s : str) :
  single_spaced isspace b s = true -> single_spaced isspace false s = true.
Proof.
  destruct b; trivial. destruct s as [|c rest]; simpl; trivial.
  destruct (isspace c); trivial.
  rewrite andb_false_r. discriminate.
Qed.

Lemma single_spaced_fixed (b : bool) (s : str) :
  single_spaced isspace b s = true -> sub_whitespace_from isspace b s = s.
Proof.
  revert b. induction s as [|c rest IH]; intros b; simpl; trivial.
  destruct (isspace c).
  - intros H. apply andb_true_iff in H. destruct H as [H Hr].
    apply andb_true_iff in H. destruct H as [Hc Hb].
    apply N.eqb_eq in Hc. apply negb_true_iff in Hb. subst.
    now rewrite IH.
  - intros H. now rewrite IH.
Qed.

Lemma single_spaced_suffix (b : bool) (ws r : str) :
  single_spaced isspace b (ws ++ r) = true ->
  single_spaced isspace false r = true.
Proof.
  revert b. induction ws as [|c ws IH]; intros b; simpl.
  - apply single_spaced_weaken.
  - destruct (isspace c).
    + intros H. apply andb_true_iff in H. destruct H as [_ H]. now apply IH in H.
    + apply IH.
Qed.

Lemma single_spaced_prefix (b : bool) (p q : str) :
  single_spaced isspace b (p ++ q) = true -> single_spaced isspace b p = true.
Proof.
  revert b. induction p as [|c p IH]; intros b; simpl; trivial.
  destruct (isspace c).
  - intros H. apply andb_true_iff in H. destruct H as [H Hr].
    rewrite H. now apply IH in Hr.
  - apply IH.
Qed.

Lemma strip_single_spaced (s : str) :
  single_spaced isspace false s = true ->
  single_spaced isspace false (strip isspace s) = true.
Proof.
  unfold strip. intros H.
  destruct (lstrip_split s) as (ws & Hs & _). rewrite Hs in H.
  apply single_spaced_suffix in H.
  destruct (rstrip_split (lstrip isspace s)) as (ws' & Hs'). rewrite Hs' in H.
  now apply single_spaced_prefix in H.
Qed.

Lemma filter_kept (s : str) :
  forallb (keeps isspace isalnum) s = true -> sub_special isspace isalnum s = s.
Proof.
  unfold sub_special. induction s as [|c rest IH]; simpl; trivial.
  intros H. apply andb_true_iff in H. destruct H as [-> H]. now rewrite IH.
Qed.

Lemma keeps_space : keeps isspace isalnum SPACE = true.
Proof. unfold keeps. rewrite space_is_space. now rewrite orb_true_r. Qed.

(** [clean_text] on a text without special characters, and what it then
    returns. *)
Lemma clean_text_kept (text : str) :
  forallb (keeps isspace isalnum) text = true ->
  clean_text isspace isalnum text
  = match text with [] => [] | _ => strip isspace (sub_whitespace isspace text) end
  /\ single_spaced isspace false (clean_text isspace isalnum text) = true
  /\ forallb (keeps isspace isalnum) (clean_text isspace isalnum text) = true.
Proof.
  intros Hk. destruct text as [|x rest]; [repeat split|].
  assert (Hall : forallb (keeps isspace isalnum)
                   (sub_whitespace isspace (x :: rest)) = true).
  { apply forallb_forall. intros c Hc. apply sub_whitespace_in in Hc.
    destruct Hc as [-> | Hc]; [apply keeps_space|].
    rewrite forallb_forall in Hk. now apply Hk. }
  unfold clean_text. rewrite (filter_kept _ Hall).
  split; [reflexivity|]. split.
  - apply strip_single_spaced, sub_whitespace_single_spaced.
  - apply forallb_forall. intros c Hc. apply strip_in in Hc.
    rewrite forallb_forall in Hall. now apply Hall.
Qed.

Lemma clean_text_fixed (text : str) :
  forallb (keeps isspace isalnum) text = true ->
  clean_text isspace isalnum (clean_text isspace isalnum text)
  = clean_text isspace isalnum text.
Proof.
  intros Hk. destruct (clean_text_kept text Hk) as (_ & Hsp & Hk').
  pose proof (proj1 (clean_text_shape text)) as Hst.
  destruct (clean_text_kept _ Hk') as (E & _ & _). rewrite E.
  destruct (clean_text isspace isalnum text) as [|c u] eqn:Eu; trivial.
  unfold sub_whitespace. rewrite (single_spaced_fixed false _ Hsp).
  now apply strip_fixed.
Qed.

(** X13. On a text that holds no special character, so that the second
    substitution removes nothing, [clean_text] is idempotent. *)
Theorem clean_text_idempotent_without_special (text : str) :
  forallb (keeps isspace isalnum) text = true ->
  clean_text isspace isalnum (clean_text isspace isalnum text)
  = clean_text isspace isalnum text.
Proof. exact (clean_text_fixed text). Qed.

(** X14. On every text the second application of [clean_text] reaches a
    text that further applications leave as it is. *)
Theorem clean_text_twice_fixed (text : str) :
  clean_text isspace isalnum
    (clean_text isspace isalnum (clean_text isspace isalnum text))
  = clean_text isspace isalnum (clean_text isspace isalnum text).
Proof.
  apply clean_text_fixed. apply forallb_forall. intros c Hc.
  pose proof (proj2 (clean_text_shape text)) as H.
  rewrite Forall_forall in H. now apply H.
Qed.

End CleanText.

Section Sentences.

Import TextProcessor.

Variable isspace : char -> bool.

Lemma re_split_nonempty (st : scan) (text : str) :
  re_split_from isspace st text <> [].
Proof.
  revert st. induction text as [|c rest IH]; intros st; simpl; [discriminate|].
  destruct (isspace c).
  - destruct st; try discriminate; [|apply IH].
    specialize (IH Plain). destruct (re_split_from isspace Plain rest);
      [contradiction | discriminate].
  - destruct (re_split_from isspace _ rest) eqn:E; [|discriminate].
    now apply IH in E.
Qed.

Lemma concat_extend (c : char) (pieces : list str) :
  concat (extend c pieces) = c :: concat pieces.
Proof. destruct pieces; reflexivity. Qed.

Lemma re_split_content (st : scan) (text : str) :
  filter (fun c => negb (isspace c)) (concat (re_split_from isspace st text))
  = filter (fun c => negb (isspace c)) text.
Proof.
  revert st. induction text as [|c rest IH]; intros st; simpl; trivial.
  destruct (isspace c) eqn:E; simpl.
  - destruct st; simpl; rewrite ?concat_extend; simpl; rewrite ?E; apply IH.
  - rewrite concat_extend. simpl. rewrite E. simpl. now rewrite IH.
Qed.

Lemma ends_sentence_cons (c : char) (p : str) :
  ends_sentence p = true -> ends_sentence (c :: p) = true.
Proof.
  unfold ends_sentence. simpl. destruct (rev p); simpl; [discriminate | trivial].
Qed.

(** The pieces of a scan: all but the last end a sentence, the first one
    possibly being the empty rest of a sentence ended before the scan. *)
Lemma re_split_ends (st : scan) (text : str) :
  match re_split_from isspace st text with
  | [] => False
  | p :: ps =>
      (ps <> [] -> ends_sentence p = true \/ (p = [] /\ st = AfterEnd))
      /\ Forall (fun q => ends_sentence q = true) (removelast ps)
  end.
Proof.
  revert st. induction text as [|c rest IH]; intros st; simpl.
  - split; [intros H; now contradiction H | constructor].
  - destruct (isspace c).
    + destruct st.
      * specialize (IH Plain).
        destruct (re_split_from isspace Plain rest) as [|p ps]; [contradiction|].
        simpl. destruct IH as [Hp Hps]. split; trivial.
        intros H. destruct (Hp H) as [Hp' | [_ Hp']]; [|discriminate].
        left. now apply ends_sentence_cons.
      * specialize (IH InSeparator).
        destruct (re_split_from isspace InSeparator rest) as [|p ps] eqn:E;
          [contradiction|].
        destruct IH as [Hp Hps]. split; [tauto|].
        destruct ps as [|q qs]; [constructor|].
        change (removelast (p :: q :: qs)) with (p :: removelast (q :: qs)).
        constructor; trivial.
        destruct Hp as [Hp | [_ Hp]]; [discriminate | trivial | discriminate].
      * apply IH.
    + set (st' := if is_sentence_end c then AfterEnd else Plain).
      specialize (IH st'). fold st'.
      destruct (re_split_from isspace st' rest) as [|p ps]; [contradiction|].
      simpl. destruct IH as [Hp Hps]. split; trivial.
      intros H. left. destruct (Hp H) as [Hp' | [-> Hst]].
      * now apply ends_sentence_cons.
      * unfold ends_sentence. simpl. subst st'.
        destruct (is_sentence_end c); [reflexivity | discriminate].
Qed.

(** X15. The sentences [re.split] yields: every one but the last ends with
    one of [. ! ?], and together they hold the characters of the text in
    their order, but for whitespace. *)
Theorem re_split_sentences (text : str) :
  re_split isspace text <> []
  /\ Forall (fun p => ends_sentence p = true) (removelast (re_split isspace text))
  /\ filter (fun c => negb (isspace c)) (concat (re_split isspace text))
     = filter (fun c => negb (isspace c)) text.
Proof.
  unfold re_split. split; [apply re_split_nonempty|].
  split; [|apply re_split_content].
  pose proof (re_split_ends Plain text) as H.
  destruct (re_split_from isspace Plain text) as [|p ps]; [contradiction|].
  destruct H as [Hp Hps]. destruct ps as [|q qs]; [constructor|].
  change (removelast (p :: q :: qs)) with (p :: removelast (q :: qs)).
  constructor; trivial.
  destruct Hp as [Hp | [_ Hp]]; [discriminate | trivial | discriminate].
Qed.

End Sentences.

Lemma len_app (a b : str) : len (a ++ b) = len a + len b.
Proof. unfold len. rewrite length_app. lia. Qed.

Lemma join_cons (sep p : str) (rest : list str) :
  rest <> [] -> join sep (p :: rest) = p ++ sep ++ join sep rest.
Proof. destruct rest; [contradiction | reflexivity]. Qed.

Lemma join_app (sep : str) (l1 l2 : list str) :
  l1 <> [] -> l2 <> [] ->
  join sep (l1 ++ l2) = join sep l1 ++ sep ++ join sep l2.
Proof.
  induction l1 as [|p l1 IH]; intros H1 H2; [contradiction|].
  destruct l1 as [|q l1].
  - simpl app. now rewrite join_cons.
  - change ((p :: q :: l1) ++ l2) with (p :: (q :: l1) ++ l2).
    rewrite join_cons by discriminate.
    rewrite IH by (trivial; discriminate).
    rewrite (join_cons sep p (q :: l1)) by discriminate.
    now rewrite <- !app_assoc.
Qed.

Lemma join_concat (sep : str) (groups : list (list str)) :
  Forall (fun g => g <> []) groups ->
  join sep (map (join sep) groups) = join sep (concat groups).
Proof.
  induction 1 as [|g gs Hg Hgs IH]; trivial.
  destruct gs as [|g' gs].
  - simpl. now rewrite app_nil_r.
  - change (map (join sep) (g :: g' :: gs))
      with (join sep g :: map (join sep) (g' :: gs)).
    rewrite join_cons by discriminate. rewrite IH.
    change (concat (g :: g' :: gs)) with (g ++ concat (g' :: gs)).
    rewrite join_app; trivial.
    inversion Hgs as [|? ? Hg' _]. simpl. destruct g'; [contradiction | discriminate].
Qed.

Section Chunking.

Import TextProcessor.

Variable isspace : char -> bool.
Variable isalnum : char -> bool.
Variable self : TextProcessor.t.
Variable chunk_size : Z.

Lemma grouping_fits (sentences current : list str) (n : Z) :
  current ++ sentences <> [] ->
  n + len (concat sentences) <= chunk_size ->
  grouping chunk_size current n sentences = [current ++ sentences].
Proof.
  revert current n.
  induction sentences as [|s rest IH]; intros current n Hne Hfit; simpl.
  - rewrite app_nil_r in *. destruct current; [contradiction | reflexivity].
  - simpl in Hfit. rewrite len_app in Hfit.
    pose proof (len_nonneg (concat rest)).
    replace (n + len s >? chunk_size) with false
      by (symmetry; rewrite Z.gtb_ltb; apply Z.ltb_ge; lia).
    simpl. rewrite IH.
    + now rewrite <- app_assoc.
    + destruct current; discriminate.
    + lia.
Qed.

(** X16. When the sentences of a text that is not empty have at most
    [chunk_size] characters in all, [split_text] makes one chunk of them,
    joined by single spaces, and returns it if it has [min_length]
    characters, and nothing otherwise. *)
Theorem split_text_single_chunk (text : str) (overlap : Z) :
  text <> [] ->
  len (concat (re_split isspace (clean_text isspace isalnum text))) <= chunk_size ->
  split_text isspace isalnum self text chunk_size overlap
  = if len (join [SPACE] (re_split isspace (clean_text isspace isalnum text)))
          >=? min_length self
    then [join [SPACE] (re_split isspace (clean_text isspace isalnum text))]
    else [].
Proof.
  intros Htext Hfit. rewrite split_text_grouping by exact Htext.
  rewrite grouping_fits.
  - reflexivity.
  - apply re_split_nonempty.
  - lia.
Qed.



Lemma grouping_groups_nonempty (sentences current : list str) (n : Z) :
  Forall (fun g => g <> []) (grouping chunk_size current n sentences).
Proof.
  revert current n. induction sentences as [|s rest IH]; intros current n; simpl.
  - destruct current; repeat constructor. discriminate.
  - destruct ((n + len s >? chunk_size) && nonempty current) eqn:E.
    + apply andb_true_iff in E. destruct E as [_ E].
      constructor; [|apply IH]. destruct current; discriminate.
    + apply IH.
Qed.

(** X18. With [min_length] at most 0 no chunk is dropped, and the chunks
    joined by single spaces are the sentences of the cleaned text joined by
    single spaces: nothing is lost, repeated or reordered. *)
Theorem split_text_keeps_all (text : str) (overlap : Z) :
  min_length self <= 0 ->
  join [SPACE] (split_text isspace isalnum self text chunk_size overlap)
  = join [SPACE] (re_split isspace (clean_text isspace isalnum text)).
Proof.
  intros Hmin. destruct text as [|c text]; [reflexivity|].
  rewrite split_text_grouping by discriminate. unfold retained.
  rewrite forallb_filter_id.
  - rewrite join_concat by apply grouping_groups_nonempty.
    now rewrite grouping_concat.
  - apply forallb_forall. intros chunk _. apply Z.geb_le.
    pose proof (len_nonneg chunk). lia.
Qed.

(** A text that is not empty and that [clean_text] empties, as one of
    whitespace only, gives no chunk when [min_length] is positive and the
    one empty chunk otherwise. *)
Theorem split_text_blank (text : str) (overlap : Z) :
  text <> [] ->
  clean_text isspace isalnum text = [] ->
  split_text isspace isalnum self text chunk_size overlap
  = if 0 >=? min_length self then [[]] else [].
Proof.
  intros Htext Hclean. rewrite split_text_grouping by exact Htext.
  rewrite Hclean. unfold re_split. simpl. rewrite andb_false_r. reflexivity.
Qed.

End Chunking.

(* ===================================================================== *)
(** * Properties of the methods on dictionaries *)
(* ===================================================================== *)

Section ProcessDocument.

Import Documents.

Variable self : TextProcessor.t.

Lemma slice_to_nonneg (A : Type) (k : Z) (l : list A) :
  0 <= k -> VectorStore.slice_to k l = firstn (Z.to_nat k) l.
Proof.
  intros H. unfold VectorStore.slice_to.
  destruct (Z.ltb_spec k 0); [lia | reflexivity].
Qed.

(** The cases of [process_document]: the document is left as it is, or its
    content, longer than [max_length] and not shorter than [min_length], is
    replaced by its slice. *)
Lemma process_document_cases (document : dict pyval) :
  process_document self document = document
  \/ exists content n content',
       dict_get document CONTENT = Some content
       /\ py_len content = Some n
       /\ TextProcessor.min_length self <= n
       /\ TextProcessor.max_length self < n
       /\ py_slice_to (TextProcessor.max_length self) content = Some content'
       /\ process_document self document = dict_set document CONTENT content'.
Proof.
  unfold process_document, get_or.
  destruct (dict_get document CONTENT) as [content|] eqn:Ec; [|now left].
  destruct (truthy content); [|now left]. simpl.
  destruct (py_len content) as [n|] eqn:En; [|now left].
  destruct (Z.ltb_spec n (TextProcessor.min_length self)); [now left|].
  destruct (n >? TextProcessor.max_length self) eqn:Egt.
  - destruct (py_slice_to (TextProcessor.max_length self) content)
      as [content'|] eqn:Es; [|now left].
    right. exists content, n, content'. repeat split; trivial.
    rewrite Z.gtb_ltb in Egt. now apply Z.ltb_lt.
  - left. now apply dict_set_same.
Qed.

Lemma dict_keys_set_present (V : Type) (d : dict V) (k : str) (v v' : V) :
  dict_get d k = Some v' -> dict_keys (dict_set d k v) = dict_keys d.
Proof.
  induction d as [|[k0 v0] rest IH]; simpl; [discriminate|].
  destruct (str_eqb k0 k); simpl; trivial.
  intros H. now rewrite IH.
Qed.

(** X19. [process_document] touches the content only: the document keeps
    its keys in their order, and the value of every key other than
    [content]. *)
Theorem process_document_frame (document : dict pyval) (key : str) :
  key <> CONTENT ->
  dict_keys (process_document self document) = dict_keys document
  /\ dict_get (process_document self document) key = dict_get document key.
Proof.
  intros Hkey.
  destruct (process_document_cases document)
    as [-> | (content & n & content' & Hc & _ & _ & _ & _ & ->)].
  - split; reflexivity.
  - split.
    + now apply dict_keys_set_present with (v' := content).
    + now apply dict_get_set_other.
Qed.

Lemma process_document_str (document : dict pyval) (s : str) :
  dict_get document CONTENT = Some (PStr s) ->
  process_document self document
  = if negb (nonempty s) || (len s <? TextProcessor.min_length self)
    then document
    else if len s >? TextProcessor.max_length self
         then dict_set document CONTENT
                (PStr (VectorStore.slice_to (TextProcessor.max_length self) s))
         else document.
Proof.
  intros Hc. unfold process_document, get_or. rewrite Hc. simpl.
  destruct (nonempty s); simpl; trivial.
  destruct (len s <? TextProcessor.min_length self); trivial.
  destruct (len s >? TextProcessor.max_length self); trivial.
  now apply dict_set_same.
Qed.

(** X20. With [max_length] not negative, a document whose content is a
    string of at least [min_length] characters comes back with the first
    [max_length] characters of that string, the whole of it when it has no
    more. *)
Theorem process_document_truncates (document : dict pyval) (s : str) :
  0 <= TextProcessor.max_length self ->
  dict_get document CONTENT = Some (PStr s) ->
  TextProcessor.min_length self <= len s ->
  dict_get (process_document self document) CONTENT
  = Some (PStr (firstn (Z.to_nat (TextProcessor.max_length self)) s))
  /\ len (firstn (Z.to_nat (TextProcessor.max_length self)) s)
     <= TextProcessor.max_length self.
Proof.
  intros Hmax Hc Hmin. split.
  - rewrite (process_document_str document s Hc).
    destruct s as [|c s]; simpl.
    + rewrite Hc. now rewrite firstn_nil.
    + destruct (Z.ltb_spec (len (c :: s)) (TextProcessor.min_length self)); [lia|].
      rewrite Z.gtb_ltb.
      destruct (Z.ltb_spec (TextProcessor.max_length self) (len (c :: s))).
      * rewrite dict_get_set_same, slice_to_nonneg by exact Hmax. reflexivity.
      * rewrite Hc, firstn_all2; trivial. unfold len in *. lia.
  - unfold len. rewrite length_firstn. lia.
Qed.

(** A document whose content is missing, empty, shorter than
    [min_length] or without a length is returned as it is: it is neither
    rejected nor marked. *)
Theorem process_document_passes_short (document : dict pyval) :
  match dict_get document CONTENT with
  | None => True
  | Some content =>
      truthy content = false
      \/ py_len content = None
      \/ exists n, py_len content = Some n /\ n < TextProcessor.min_length self
  end ->
  process_document self document = document.
Proof.
  unfold process_document, get_or.
  destruct (dict_get document CONTENT) as [content|]; [|reflexivity].
  intros [H | [H | (n & Hn & Hshort)]].
  - now rewrite H.
  - rewrite H. now destruct (truthy content).
  - rewrite Hn. destruct (truthy content); simpl; trivial.
    destruct (Z.ltb_spec n (TextProcessor.min_length self)); [reflexivity | lia].
Qed.

(** X21. With [max_length] not negative, [process_document] is idempotent:
    a processed document is left as it is by a second call. *)
Theorem process_document_idempotent (document : dict pyval) :
  0 <= TextProcessor.max_length self ->
  process_document self (process_document self document)
  = process_document self document.
Proof.
  intros Hmax.
  destruct (process_document_cases document)
    as [E | (content & n & content' & Hc & Hn & Hmin & Hlong & Hs & ->)];
    [now rewrite !E|].
  assert (Hlen : py_len content' = Some (TextProcessor.max_length self)).
  { destruct content; try discriminate; simpl in Hs, Hn;
      injection Hs as <-; injection Hn as <-; simpl;
      rewrite slice_to_nonneg by exact Hmax; unfold len;
      rewrite length_firstn; f_equal; unfold len in Hlong; lia. }
  unfold process_document at 1. unfold get_or.
  rewrite dict_get_set_same. destruct (truthy content'); simpl; trivial.
  rewrite Hlen.
  destruct (TextProcessor.max_length self <? TextProcessor.min_length self); trivial.
  rewrite Z.gtb_ltb, Z.ltb_irrefl.
  apply dict_set_same. apply dict_get_set_same.
Qed.

Lemma filter_chunks_returns (chunks : list (dict pyval)) :
  Forall (fun chunk => content_length chunk <> None) chunks ->
  filter_chunks self chunks = Return (filter (in_bounds self) chunks).
Proof.
  induction 1 as [|chunk rest Hc Hrest IH]; simpl; trivial.
  unfold in_bounds, content_length in *.
  destruct (dict_get chunk CONTENT) as [content|]; [|contradiction].
  destruct (py_len content) as [n|]; [|contradiction].
  now rewrite IH.
Qed.

Lemma filter_chunks_raises (chunks : list (dict pyval)) :
  Exists (fun chunk => content_length chunk = None) chunks ->
  exists e, filter_chunks self chunks = Raise e.
Proof.
  induction chunks as [|chunk rest IH]; intros H; [inversion H|]. simpl.
  unfold content_length in *.
  destruct (dict_get chunk CONTENT) as [content|] eqn:Ec; [|eauto].
  destruct (py_len content) as [n|] eqn:En; [|eauto].
  inversion H as [? ? Hc | ? ? Hr]; subst.
  - rewrite Ec, En in Hc. discriminate.
  - destruct (IH Hr) as [e ->]. eauto.
Qed.

(** X22. When every chunk has a content with a length, [filter_chunks]
    returns, in their order, the chunks whose content length lies between
    [min_length] and [max_length], and a second call on its result changes
    nothing. *)
Theorem filter_chunks_keeps_in_bounds (chunks : list (dict pyval)) :
  Forall (fun chunk => content_length chunk <> None) chunks ->
  filter_chunks self chunks = Return (filter (in_bounds self) chunks)
  /\ filter_chunks self (filter (in_bounds self) chunks)
     = Return (filter (in_bounds self) chunks).
Proof.
  intros H. split; [now apply filter_chunks_returns|].
  rewrite filter_chunks_returns.
  - f_equal. apply forallb_filter_id. apply forallb_forall.
    intros chunk Hc. now apply filter_In in Hc.
  - apply Forall_forall. intros chunk Hc. apply filter_In in Hc.
    rewrite Forall_forall in H. now apply H.
Qed.

(** X23. A single chunk without a [content], or whose content has no
    length, makes [filter_chunks] raise: no chunk is skipped silently, and
    no list is returned for the other chunks. *)
Theorem filter_chunks_rejects_malformed (chunks : list (dict pyval))
    (chunk : dict pyval) :
  In chunk chunks ->
  content_length chunk = None ->
  exists e : exn, filter_chunks self chunks = Raise e.
Proof.
  intros Hin Hc. apply filter_chunks_raises. apply Exists_exists. eauto.
Qed.

End ProcessDocument.

Lemma split_text_chunk_min (isspace isalnum : char -> bool) (self : TextProcessor.t)
    (text : str) (chunk_size overlap : Z) (chunk : str) :
  In chunk (TextProcessor.split_text isspace isalnum self text chunk_size overlap) ->
  TextProcessor.min_length self <= len chunk.
Proof.
  destruct text as [|c text]; [contradiction|].
  rewrite split_text_grouping by discriminate.
  intros H. pose proof (retained_bounded self
    (TextProcessor.grouping chunk_size [] 0
       (TextProcessor.re_split isspace
          (TextProcessor.clean_text isspace isalnum (c :: text))))) as Hb.
  rewrite Forall_forall in Hb. now apply Hb.
Qed.

(** X24. On dictionaries whose contents are chunks [split_text] returned
    for the same bounds, [filter_chunks] drops the chunks longer than
    [max_length] and no other: its test against [min_length] never
    fails. *)
Theorem filter_chunks_after_split_text (isspace isalnum : char -> bool)
    (self : TextProcessor.t) (text : str) (chunk_size overlap : Z)
    (chunks : list (dict pyval)) :
  Forall (fun chunk =>
            exists c, dict_get chunk Documents.CONTENT = Some (PStr c)
                      /\ In c (TextProcessor.split_text isspace isalnum self text
                                 chunk_size overlap))
         chunks ->
  Documents.filter_chunks self chunks
  = Documents.Return
      (filter (fun chunk =>
                 match Documents.content_length chunk with
                 | Some n => n <=? TextProcessor.max_length self
                 | None => false
                 end)
              chunks).
Proof.
  intros H. rewrite filter_chunks_returns.
  - f_equal. apply filter_ext_in. intros chunk Hc.
    rewrite Forall_forall in H. destruct (H chunk Hc) as (c & Ec & Hin).
    unfold Documents.in_bounds, Documents.content_length, Documents.within.
    rewrite Ec. simpl.
    apply split_text_chunk_min in Hin.
    now replace (TextProcessor.min_length self <=? len c) with true
      by (symmetry; apply Z.leb_le; exact Hin).
  - apply Forall_forall. intros chunk Hc.
    rewrite Forall_forall in H. destruct (H chunk Hc) as (c & Ec & _).
    unfold Documents.content_length. rewrite Ec. discriminate.
Qed.

(* ===================================================================== *)
(** * Properties of the configuration *)
(* ===================================================================== *)

(** The three accessors agree: for a key the mapping holds, [get]
    returns the value [__getitem__] returns, whatever the default and also
    when that value is [None]; for any other key [__contains__] is false,
    [__getitem__] raises and [get] returns the default. *)
Theorem config_accessors_agree (self : Config.t) (key : str) (default : pyval) :
  match Config.getitem self key with
  | Some value =>
      Config.contains self key = true /\ Config.get self key default = value
  | None =>
      Config.contains self key = false /\ Config.get self key default = default
  end.
Proof.
  unfold Config.getitem, Config.contains, Config.get, dict_contains.
  destruct (dict_get (Config.config self) key); split; reflexivity.
Qed.

(** Induction on a value and on the values it holds. *)
Lemma pyval_nested_ind (P : pyval -> Prop) :
  P PNone ->
  (forall b, P (PBool b)) ->
  (forall z, P (PInt z)) ->
  (forall x, P (PFloat x)) ->
  (forall s, P (PStr s)) ->
  (forall items, Forall P items -> P (PList items)) ->
  (forall items, Forall (fun kv => P (snd kv)) items -> P (PDict items)) ->
  forall v, P v.
Proof.
  intros HN HB HI HF HS HL HD. fix IH 1.
  intros [ | b | z | x | s | items | items].
  - exact HN.
  - apply HB.
  - apply HI.
  - apply HF.
  - apply HS.
  - apply HL.
    exact ((fix all (l : list pyval) : Forall P l :=
              match l with
              | [] => Forall_nil P
              | a :: rest => Forall_cons a (IH a) (all rest)
              end) items).
  - apply HD.
    exact ((fix all (l : list (str * pyval)) : Forall (fun kv => P (snd kv)) l :=
              match l with
              | [] => Forall_nil _
              | (k, a) :: rest =>
                  @Forall_cons _ (fun kv => P (snd kv)) (k, a) rest (IH a) (all rest)
              end) items).
Qed.

Section ReplaceEnvVars.

Variable getenv : str -> option str.

Lemma map_fixed (A : Type) (f : A -> A) (l : list A) :
  Forall (fun a => f a = a) l -> map f l = l.
Proof. induction 1 as [|a rest Ha _ IH]; simpl; congruence. Qed.

Lemma replace_env_vars_fixed (config : pyval) :
  Config.placeholder_free config = true ->
  Config._replace_env_vars getenv config = config.
Proof.
  induction config as [ | b | z | x | s | items IH | items IH]
    using pyval_nested_ind; simpl; trivial.
  - intros H. apply negb_true_iff in H. now rewrite H.
  - intros H. f_equal. apply map_fixed.
    rewrite forallb_forall in H. rewrite Forall_forall in *.
    intros a Ha. apply IH; auto.
  - intros H. f_equal. apply map_fixed.
    rewrite forallb_forall in H. rewrite Forall_forall in *.
    intros [k a] Ha. f_equal. apply (IH (k, a) Ha). exact (H (k, a) Ha).
Qed.

(** X25. [_replace_env_vars] leaves a configuration that holds no string of
    the form of a placeholder as it is. *)
Theorem replace_env_vars_without_placeholder (config : pyval) :
  Config.placeholder_free config = true ->
  Config._replace_env_vars getenv config = config.
Proof. exact (replace_env_vars_fixed config). Qed.

Hypothesis values_plain :
  forall name value, getenv name = Some value -> Config.is_placeholder value = false.

Lemma replace_env_vars_free (config : pyval) :
  Config.placeholder_free (Config._replace_env_vars getenv config) = true.
Proof.
  induction config as [ | b | z | x | s | items IH | items IH]
    using pyval_nested_ind; simpl; trivial.
  - destruct (Config.is_placeholder s) eqn:E; simpl.
    + destruct (getenv (Config.env_var s)) as [value|] eqn:Ev.
      * now rewrite (values_plain _ _ Ev).
      * reflexivity.
    + now rewrite E.
  - apply forallb_forall. intros a Ha. apply in_map_iff in Ha.
    destruct Ha as (a0 & <- & Ha0). rewrite Forall_forall in IH. now apply IH.
  - apply forallb_forall. intros [k a] Ha. apply in_map_iff in Ha.
    destruct Ha as ([k0 a0] & E & Ha0). injection E as <- <-.
    rewrite Forall_forall in IH. exact (IH (k0, a0) Ha0).
Qed.

(** X26. When no variable of the environment has a value of the form of a
    placeholder, one pass of [_replace_env_vars] removes every placeholder,
    and a second pass changes nothing. *)
Theorem replace_env_vars_once (config : pyval) :
  Config.placeholder_free (Config._replace_env_vars getenv config) = true
  /\ Config._replace_env_vars getenv (Config._replace_env_vars getenv config)
     = Config._replace_env_vars getenv config.
Proof.
  split; [apply replace_env_vars_free|].
  apply replace_env_vars_fixed, replace_env_vars_free.
Qed.

End ReplaceEnvVars.

(* ===================================================================== *)
(** * Properties of the documents sent to the store *)
(* ===================================================================== *)

Lemma py_inj (a b : string) : py a = py b -> a = b.
Proof.
  unfold py. intros H.
  rewrite <- (string_of_list_ascii_of_string a),
          <- (string_of_list_ascii_of_string b).
  f_equal. revert H.
  generalize (list_ascii_of_string a) (list_ascii_of_string b).
  induction l as [|x l IH]; intros [|y l']; simpl; try discriminate; trivial.
  intros H. injection H as Hx Hl. f_equal; [|now apply IH].
  rewrite <- (ascii_N_embedding x), <- (ascii_N_embedding y). now rewrite Hx.
Qed.

Lemma to_int_proper (z : Z) :
  Z.to_int z <> Decimal.Pos Decimal.Nil /\ Z.to_int z <> Decimal.Neg Decimal.Nil.
Proof.
  destruct z as [|p|p]; simpl; split; try discriminate;
    intros H; injection H as H; now apply DecimalPos.Unsigned.to_uint_nonnil in H.
Qed.

Lemma str_of_int_inj (a b : Z) : str_of_int a = str_of_int b -> a = b.
Proof.
  unfold str_of_int. intros H. apply py_inj in H.
  apply DecimalZ.to_int_inj.
  destruct (to_int_proper a) as [Ha1 Ha2], (to_int_proper b) as [Hb1 Hb2].
  pose proof (DecimalString.NilZero.isi _ Ha1 Ha2) as Ia.
  pose proof (DecimalString.NilZero.isi _ Hb1 Hb2) as Ib.
  rewrite H in Ia. rewrite Ia in Ib. now injection Ib.
Qed.

Lemma digits_no_underscore (d : Decimal.uint) :
  ~ In "_"%char (list_ascii_of_string (DecimalString.NilEmpty.string_of_uint d)).
Proof.
  induction d; simpl; intros H; try contradiction;
    destruct H as [H | H]; try discriminate; contradiction.
Qed.

Lemma str_of_int_no_underscore (z : Z) : ~ In 95%N (str_of_int z).
Proof.
  unfold str_of_int, py. intros H. apply in_map_iff in H.
  destruct H as (a & Ha & Hin).
  assert (a = "_"%char) as ->.
  { rewrite <- (ascii_N_embedding a), Ha. reflexivity. }
  revert Hin. unfold DecimalString.NilZero.string_of_int.
  destruct (Z.to_int z) as [d | d]; unfold DecimalString.NilZero.string_of_uint.
  - destruct d; try apply digits_no_underscore.
    simpl. intros [H | []]. discriminate.
  - simpl. intros [H | H]; [discriminate|]. revert H.
    destruct d; try apply digits_no_underscore.
    simpl. intros [H | []]. discriminate.
Qed.

Lemma split_at_mark (c : char) (a a' r r' : str) :
  ~ In c a -> ~ In c a' -> a ++ c :: r = a' ++ c :: r' -> a = a'.
Proof.
  revert a'. induction a as [|x a IH]; intros [|y a'] Ha Ha' H; simpl in *.
  - reflexivity.
  - injection H as -> _. tauto.
  - injection H as -> _. tauto.
  - injection H as -> H. f_equal. apply IH with (a' := a'); tauto.
Qed.

Section IngestFacts.

Import Ingest.

Variable py_hash : pyval -> option Z.

(** The id given to the document at index [i] whose content hashes to [h]. *)
Lemma doc_id_index (i j : nat) (h h' : Z) :
  py "doc_" ++ str_of_int (Z.of_nat i) ++ py "_" ++ str_of_int h
  = py "doc_" ++ str_of_int (Z.of_nat j) ++ py "_" ++ str_of_int h' ->
  i = j.
Proof.
  intros H. apply app_inv_head in H.
  change (py "_" ++ ?x) with (95%N :: x) in H.
  apply split_at_mark in H; try apply str_of_int_no_underscore.
  apply str_of_int_inj in H. lia.
Qed.

Lemma add_documents_loop_shape (documents : list (dict pyval)) (i : nat)
    (b b' : batch) :
  add_documents_loop py_hash i documents b = Some b' ->
  texts b' = texts b ++ map (fun doc => get_or doc (py "content") (PStr [])) documents
  /\ metadatas b' = metadatas b ++ map doc_metadata documents
  /\ exists new_ids,
       ids b' = ids b ++ new_ids
       /\ length new_ids = length documents
       /\ NoDup new_ids
       /\ forall id, In id new_ids ->
            exists j h, (i <= j)%nat
                        /\ id = py "doc_" ++ str_of_int (Z.of_nat j)
                                ++ py "_" ++ str_of_int h.
Proof.
  revert i b. induction documents as [|doc rest IH]; intros i b H; simpl in *.
  - injection H as <-. rewrite !app_nil_r. repeat split.
    exists []. rewrite app_nil_r. repeat split; [constructor | contradiction].
  - unfold doc_id in H.
    destruct (py_hash (get_or doc (py "content") (PStr []))) as [h|]; [|discriminate].
    apply IH in H. simpl in H.
    destruct H as (Ht & Hm & new_ids & Hi & Hlen & Hnd & Hform).
    rewrite <- app_assoc in Ht, Hm, Hi. simpl in Ht, Hm, Hi.
    repeat split; trivial.
    eexists. split; [exact Hi|]. split; [simpl; now rewrite Hlen|]. split.
    + constructor; trivial. intros Hin.
      destruct (Hform _ Hin) as (j & h' & Hj & E).
      apply doc_id_index in E. lia.
    + intros id [<- | Hin].
      * exists i, h. split; [lia | reflexivity].
      * destruct (Hform _ Hin) as (j & h' & Hj & E).
        exists j, h'. split; [lia | exact E].
Qed.

(** X27. The batch [add_documents] prepares has one id, one text and one
    metadata dictionary for each document; the text is the content of the
    document, the empty string when it has none, and the metadata has the
    four keys [source], [source_url], [field] and [chunk_index], each with
    its default when the document lacks it. *)
Theorem add_documents_batch_shape (documents : list (dict pyval)) (b : batch) :
  add_documents_batch py_hash documents = Some b ->
  length (ids b) = length documents
  /\ texts b = map (fun doc => get_or doc (py "content") (PStr [])) documents
  /\ metadatas b = map doc_metadata documents
  /\ Forall (fun m => dict_keys m
                      = [py "source"; py "source_url"; py "field"; py "chunk_index"])
            (metadatas b).
Proof.
  intros H. apply add_documents_loop_shape in H. simpl in H.
  destruct H as (Ht & Hm & new_ids & Hi & Hlen & _).
  rewrite Hi, Ht, Hm. repeat split; trivial.
  apply Forall_forall. intros m Hin. apply in_map_iff in Hin.
  now destruct Hin as (doc & <- & _).
Qed.

(** X28. The ids of a batch are pairwise distinct, whatever the hashes of
    the contents are: the index of the document tells them apart. *)
Theorem add_documents_ids_distinct (documents : list (dict pyval)) (b : batch) :
  add_documents_batch py_hash documents = Some b ->
  NoDup (ids b).
Proof.
  intros H. apply add_documents_loop_shape in H. simpl in H.
  destruct H as (_ & _ & new_ids & Hi & _ & Hnd & _). now rewrite Hi.
Qed.

End IngestFacts.

(* ===================================================================== *)
(** * Properties of the crawler *)
(* ===================================================================== *)

Section CrawlFacts.

Import PsychonautWikiCrawler.

Variable http_get : str -> dict pyval -> option pyval.
Variable py_str : pyval -> str.

Lemma traverse_format_page (pages : list (str * pyval)) (docs : list (dict pyval)) :
  traverse format_page pages = Some docs -> Forall2 formatted pages docs.
Proof.
  revert docs. induction pages as [|[page_id page] rest IH]; intros docs; simpl.
  - intros H. injection H as <-. constructor.
  - destruct (subscript page (py "title")) as [title|] eqn:Et; [|discriminate].
    destruct (subscript page (py "fullurl")) as [url|] eqn:Eu; [|discriminate].
    destruct (subscript page (py "extract")) as [content|] eqn:Ec; [|discriminate].
    destruct (traverse format_page rest) as [docs'|]; [|discriminate].
    intros H. injection H as <-. constructor; [|now apply IH].
    exists title, url, content. simpl. now rewrite Et, Eu, Ec.
Qed.

Lemma traverse_fails (pages : list (str * pyval)) :
  Exists (fun entry => format_page entry = None) pages ->
  traverse format_page pages = None.
Proof.
  induction 1 as [entry rest H | entry rest _ IH]; simpl.
  - now rewrite H.
  - destruct (format_page entry); trivial. now rewrite IH.
Qed.

(** X29. [crawl] returns all pages or none: its result is empty, or it
    holds one document for each page of the second response, in the order
    of the response, made of the id of the page and of its [title],
    [fullurl] and [extract] under the keys [id], [title], [url] and
    [content]. *)
Theorem crawl_all_or_nothing :
  crawl http_get py_str = []
  \/ exists response page_ids response' pages,
       http_get base_url list_params = Some response
       /\ page_ids_of py_str response = Some page_ids
       /\ http_get base_url (detail_params page_ids) = Some response'
       /\ pages_of response' = Some pages
       /\ Forall2 formatted pages (crawl http_get py_str).
Proof.
  unfold crawl, crawl_body.
  destruct (http_get base_url list_params) as [response|] eqn:E1; [|now left].
  destruct (truthy response); [|now left]. simpl.
  destruct (page_ids_of py_str response) as [page_ids|] eqn:E2; [|now left].
  destruct (http_get base_url (detail_params page_ids)) as [response'|] eqn:E3;
    [|now left].
  destruct (truthy response'); [|now left]. simpl.
  destruct (pages_of response') as [pages|] eqn:E4; [|now left].
  destruct (traverse format_page pages) as [docs|] eqn:E5; [|now left].
  right. exists response, page_ids, response', pages.
  repeat split; trivial. now apply traverse_format_page.
Qed.

(** X30. One page of the second response without a [title], a [fullurl] or
    an [extract] empties the whole crawl: the pages that have them are not
    returned either. *)
Theorem crawl_drops_all_on_defective_page (response response' : pyval)
    (page_ids : list str) (pages : list (str * pyval)) (entry : str * pyval) :
  http_get base_url list_params = Some response ->
  page_ids_of py_str response = Some page_ids ->
  http_get base_url (detail_params page_ids) = Some response' ->
  pages_of response' = Some pages ->
  In entry pages ->
  format_page entry = None ->
  crawl http_get py_str = [].
Proof.
  intros E1 E2 E3 E4 Hin Hbad. unfold crawl, crawl_body.
  rewrite E1. destruct (truthy response); trivial. simpl.
  rewrite E2, E3. destruct (truthy response'); trivial. simpl.
  rewrite E4, traverse_fails; trivial.
  apply Exists_exists. eauto.
Qed.

End CrawlFacts.

(* ===================================================================== *)
(** * The further properties on concrete inputs *)
(* ===================================================================== *)

Lemma add_keeps_other_entries_witness :
  fst (get (py "b") (snd (add (py "a") [3; 4]%float None four_records)))
  = fst (get (py "b") four_records).
Proof.
  apply (add_keeps_other_entries four_records (py "a") (py "b") [3; 4]%float None).
  discriminate.
Defined.

Lemma delete_reports_and_removes_witness :
  fst (delete (py "a") four_records)
  = Return (dict_contains (vectors four_records) (py "a"))
  /\ consistent (snd (delete (py "a") four_records))
  /\ fst (get (py "a") (snd (delete (py "a") four_records))) = Return None
  /\ fst (delete (py "a") (snd (delete (py "a") four_records))) = Return false.
Proof.
  apply (delete_reports_and_removes four_records (py "a")).
  exact four_records_consistent.
Defined.

Lemma delete_keeps_other_entries_witness :
  fst (get (py "b") (snd (delete (py "a") four_records)))
  = fst (get (py "b") four_records).
Proof.
  apply (delete_keeps_other_entries four_records (py "a") (py "b")).
  - exact four_records_consistent.
  - discriminate.
Defined.

Lemma search_length_witness :
  exists hits : list hit,
    search dot_exact norm_exact [1; 0]%float (-1) four_records
    = (Return hits, four_records)
    /\ Z.of_nat (length hits)
       = if -1 <? 0
         then Z.max 0 (Z.of_nat (length (vectors four_records)) + -1)
         else Z.min (-1) (Z.of_nat (length (vectors four_records))).
Proof.
  apply (search_length dot_exact norm_exact four_records [1; 0]%float (-1)).
  - exact four_records_consistent.
  - reflexivity.
Defined.

Lemma search_returns_most_similar_witness :
  exists hits : list hit,
    search dot_exact norm_exact [1; 0]%float 2 four_records
    = (Return hits, four_records)
    /\ forall (h : hit) (id : str) (v : vector) (x : float),
         In h hits ->
         In (id, v) (vectors four_records) ->
         ~ In id (map hit_id hits) ->
         cosine dot_exact norm_exact [1; 0]%float v = Return x ->
         (x <=? hit_similarity h)%float = true.
Proof.
  apply (search_returns_most_similar dot_exact norm_exact four_records
           [1; 0]%float 2).
  - exact four_records_consistent.
  - reflexivity.
Defined.

Lemma search_hits_are_entries_witness :
  exists hits : list hit,
    search dot_exact norm_exact [1; 0]%float 2 four_records
    = (Return hits, four_records)
    /\ NoDup (map hit_id hits)
    /\ Forall (fun h =>
                 fst (get (hit_id h) four_records)
                 = Return (Some (mkEntry (hit_vector h) (hit_metadata h)))
                 /\ cosine dot_exact norm_exact [1; 0]%float (hit_vector h)
                    = Return (hit_similarity h))
              hits.
Proof.
  apply (search_hits_are_entries dot_exact norm_exact four_records
           [1; 0]%float 2).
  - exact four_records_consistent.
  - reflexivity.
Defined.

Lemma search_raises_on_mismatch_witness :
  exists e' : VectorStore.exn,
    search dot_exact norm_exact [1; 0]%float 5 mixed_shapes
    = (Raise e', mixed_shapes).
Proof.
  apply (search_raises_on_mismatch dot_exact norm_exact mixed_shapes
           [1; 0]%float 5 (py "b") [1; 0; 0]%float ValueError).
  - right. left. reflexivity.
  - reflexivity.
Defined.

Lemma search_after_delete_witness :
  exists hits : list hit,
    (delete (py "a") ;; search dot_exact norm_exact [1; 0]%float 3) four_records
    = (Return hits, snd (delete (py "a") four_records))
    /\ ~ In (py "a") (map hit_id hits).
Proof.
  apply (search_after_delete dot_exact norm_exact four_records [1; 0]%float 3
           (py "a")).
  - exact four_records_consistent.
  - reflexivity.
Defined.

Lemma clean_text_idempotent_without_special_witness :
  clean_text ascii_isspace ascii_isalnum
    (clean_text ascii_isspace ascii_isalnum (py "  Hello,   world!  (ok) "))
  = clean_text ascii_isspace ascii_isalnum (py "  Hello,   world!  (ok) ").
Proof.
  apply (clean_text_idempotent_without_special ascii_isspace ascii_isalnum).
  - reflexivity.
  - reflexivity.
Defined.

Lemma clean_text_twice_fixed_witness :
  clean_text ascii_isspace ascii_isalnum
    (clean_text ascii_isspace ascii_isalnum
       (clean_text ascii_isspace ascii_isalnum (py "a # b")))
  = clean_text ascii_isspace ascii_isalnum
      (clean_text ascii_isspace ascii_isalnum (py "a # b")).
Proof.
  apply (clean_text_twice_fixed ascii_isspace ascii_isalnum).
  reflexivity.
Defined.

Lemma split_text_single_chunk_witness :
  split_text ascii_isspace ascii_isalnum (TextProcessor.mk 10 10000)
    (py "One. Two! Three?") 40 200
  = if len (join [SPACE]
              (re_split ascii_isspace
                 (clean_text ascii_isspace ascii_isalnum (py "One. Two! Three?"))))
          >=? 10
    then [join [SPACE]
            (re_split ascii_isspace
               (clean_text ascii_isspace ascii_isalnum (py "One. Two! Three?")))]
    else [].
Proof.
  apply (split_text_single_chunk ascii_isspace ascii_isalnum
           (TextProcessor.mk 10 10000) 40 (py "One. Two! Three?") 200).
  - discriminate.
  - vm_compute. discriminate.
Defined.

Lemma split_text_keeps_all_witness :
  join [SPACE]
    (split_text ascii_isspace ascii_isalnum (TextProcessor.mk 0 10000)
       (py "One. Two! Three? Four.") 8 200)
  = join [SPACE]
      (re_split ascii_isspace
         (clean_text ascii_isspace ascii_isalnum (py "One. Two! Three? Four."))).
Proof.
  apply (split_text_keeps_all ascii_isspace ascii_isalnum
           (TextProcessor.mk 0 10000) 8 (py "One. Two! Three? Four.") 200).
  vm_compute. discriminate.
Defined.

Lemma process_document_frame_witness :
  dict_keys (Documents.process_document (TextProcessor.mk 2 4) ten_letters)
  = dict_keys ten_letters
  /\ dict_get (Documents.process_document (TextProcessor.mk 2 4) ten_letters)
       (py "title")
     = dict_get ten_letters (py "title").
Proof.
  apply (process_document_frame (TextProcessor.mk 2 4) ten_letters (py "title")).
  discriminate.
Defined.

Lemma process_document_truncates_witness :
  dict_get (Documents.process_document (TextProcessor.mk 2 4) ten_letters)
    Documents.CONTENT
  = Some (PStr (firstn (Z.to_nat 4) (py "abcdefghij")))
  /\ len (firstn (Z.to_nat 4) (py "abcdefghij")) <= 4.
Proof.
  apply (process_document_truncates (TextProcessor.mk 2 4) ten_letters
           (py "abcdefghij")).
  - vm_compute. discriminate.
  - reflexivity.
  - vm_compute. discriminate.
Defined.

Lemma process_document_idempotent_witness :
  Documents.process_document (TextProcessor.mk 2 4)
    (Documents.process_document (TextProcessor.mk 2 4) ten_letters)
  = Documents.process_document (TextProcessor.mk 2 4) ten_letters.
Proof.
  apply (process_document_idempotent (TextProcessor.mk 2 4) ten_letters).
  vm_compute. discriminate.
Defined.

Lemma filter_chunks_keeps_in_bounds_witness :
  Documents.filter_chunks (TextProcessor.mk 2 4) three_chunks
  = Documents.Return (filter (Documents.in_bounds (TextProcessor.mk 2 4)) three_chunks)
  /\ Documents.filter_chunks (TextProcessor.mk 2 4)
       (filter (Documents.in_bounds (TextProcessor.mk 2 4)) three_chunks)
     = Documents.Return
         (filter (Documents.in_bounds (TextProcessor.mk 2 4)) three_chunks).
Proof.
  apply (filter_chunks_keeps_in_bounds (TextProcessor.mk 2 4) three_chunks).
  repeat constructor; discriminate.
Defined.

Lemma filter_chunks_rejects_malformed_witness :
  exists e : Documents.exn,
    Documents.filter_chunks (TextProcessor.mk 2 4) (three_chunks ++ [no_content])
    = Documents.Raise e.
Proof.
  apply (filter_chunks_rejects_malformed (TextProcessor.mk 2 4)
           (three_chunks ++ [no_content]) no_content).
  - apply in_or_app. right. left. reflexivity.
  - reflexivity.
Defined.

Lemma filter_chunks_after_split_text_witness :
  Documents.filter_chunks (TextProcessor.mk 3 8)
    [[(py "content", PStr (py "One. Two!"))]; [(py "content", PStr (py "Three?"))]]
  = Documents.Return
      (filter (fun chunk =>
                 match Documents.content_length chunk with
                 | Some n => n <=? 8
                 | None => false
                 end)
         [[(py "content", PStr (py "One. Two!"))];
          [(py "content", PStr (py "Three?"))]]).
Proof.
  apply (filter_chunks_after_split_text ascii_isspace ascii_isalnum
           (TextProcessor.mk 3 8) (py "One. Two! Three? Four.") 8 200).
  repeat constructor.
  - exists (py "One. Two!"). split; [reflexivity|]. vm_compute. left. reflexivity.
  - exists (py "Three?"). split; [reflexivity|].
    vm_compute. right. left. reflexivity.
Defined.

Lemma replace_env_vars_without_placeholder_witness :
  Config._replace_env_vars home_only (PDict (Config.config nested_config))
  = PDict (Config.config nested_config).
Proof.
  apply (replace_env_vars_without_placeholder home_only
           (PDict (Config.config nested_config))).
  reflexivity.
Defined.

Lemma home_only_plain (name value : str) :
  home_only name = Some value -> Config.is_placeholder value = false.
Proof.
  unfold home_only. destruct (str_eqb name (py "HOME")); [|discriminate].
  intros H. now injection H as <-.
Qed.

Lemma replace_env_vars_once_witness :
  Config.placeholder_free (Config._replace_env_vars home_only with_placeholders)
  = true
  /\ Config._replace_env_vars home_only
       (Config._replace_env_vars home_only with_placeholders)
     = Config._replace_env_vars home_only with_placeholders.
Proof.
  apply (replace_env_vars_once home_only home_only_plain with_placeholders).
Defined.

Lemma add_documents_batch_shape_witness :
  exists b : Ingest.batch,
    Ingest.add_documents_batch length_hash two_documents = Some b
    /\ length (Ingest.ids b) = length two_documents
    /\ Ingest.texts b
       = map (fun doc => get_or doc (py "content") (PStr [])) two_documents
    /\ Ingest.metadatas b = map Ingest.doc_metadata two_documents
    /\ Forall (fun m => dict_keys m
                        = [py "source"; py "source_url"; py "field";
                           py "chunk_index"])
              (Ingest.metadatas b).
Proof.
  eexists. split; [reflexivity|].
  apply (add_documents_batch_shape length_hash two_documents).
  reflexivity.
Defined.

Lemma add_documents_ids_distinct_witness :
  exists b : Ingest.batch,
    Ingest.add_documents_batch length_hash two_documents = Some b
    /\ NoDup (Ingest.ids b).
Proof.
  eexists. split; [reflexivity|].
  apply (add_documents_ids_distinct length_hash two_documents).
  reflexivity.
Defined.

Lemma crawl_drops_all_on_defective_page_witness :
  PsychonautWikiCrawler.crawl (server false) int_str = [].
Proof.
  apply (crawl_drops_all_on_defective_page (server false) int_str
           members_response (pages_response false) [py "1"; py "2"]
           [(py "1", page "A" true); (py "2", page "B" false)]
           (py "2", page "B" false)).
  - reflexivity.
  - reflexivity.
  - reflexivity.
  - reflexivity.
  - right. left. reflexivity.
  - reflexivity.
Defined.

(** The crawl of the complete server returns its two pages. *)
Example crawl_two_pages :
  map (fun doc => dict_get doc (py "title"))
      (PsychonautWikiCrawler.crawl (server true) int_str)
  = [Some (PStr (py "A")); Some (PStr (py "B"))].
Proof. reflexivity. Qed.
